(** * timezone-translate: wall-clock resolution and timezone identification

    A shallow embedding of [src/shared/parser.js] and
    [src/content/timezone-data.js] (with the [updateResult] handler,
    [escapeHtml] and [buildTimezoneOptions] of
    [src/content/dialog.js]), together with the parts of the JavaScript
    host they call: strings as sequences of UTF-16 code units, the
    ECMAScript date algorithms, [Intl.DateTimeFormat] over a zone-rules
    database, and the [chrono-node] extractor as an abstract capability. *)

From Stdlib Require Import ZArith List String Ascii Bool Lia Arith.
From Stdlib Require Import Sorting.Sorted.
Import ListNotations.
Local Open Scope Z_scope.

(* ================================================================== *)
(** ** JavaScript strings *)

(** A JavaScript string is a sequence of UTF-16 code units. *)
Definition jsstring := list Z.

Definition lit (s : string) : jsstring :=
  map (fun a => Z.of_N (N_of_ascii a)) (list_ascii_of_string s).

Fixpoint streq (a b : jsstring) : bool :=
  match a, b with
  | [], [] => true
  | x :: a', y :: b' => (x =? y) && streq a' b'
  | _, _ => false
  end.

Definition isUpperAZ (c : Z) : bool := (65 <=? c) && (c <=? 90).
Definition isLowerAZ (c : Z) : bool := (97 <=? c) && (c <=? 122).
Definition isDigit (c : Z) : bool := (48 <=? c) && (c <=? 57).

Definition isAscii (c : Z) : bool := (0 <=? c) && (c <=? 127).

(** [String.prototype.toUpperCase] and [toLowerCase], restricted to the
    ASCII letters.  The program applies them to alias keys and to regex
    matches of alias keys only, and those consist of ASCII characters
    (see [exec_raw_ascii]); other code units are left unchanged here. *)
Definition upperChar (c : Z) : Z := if isLowerAZ c then c - 32 else c.
Definition lowerChar (c : Z) : Z := if isUpperAZ c then c + 32 else c.
Definition toUpperCase (s : jsstring) : jsstring := map upperChar s.
Definition toLowerCase (s : jsstring) : jsstring := map lowerChar s.

(** [s.includes(" ")] for a one-character needle. *)
Definition includesChar (c : Z) (s : jsstring) : bool :=
  existsb (fun x => x =? c) s.

Definition len (s : jsstring) : nat := List.length s.

(** Decimal digits of a non-negative integer, most significant first.
    [fuel] bounds the number of digits. *)
Fixpoint digitsFuel (fuel : nat) (n : Z) (acc : jsstring) : jsstring :=
  match fuel with
  | O => acc
  | S f =>
      let acc' := (48 + n mod 10) :: acc in
      if n <? 10 then acc' else digitsFuel f (n / 10) acc'
  end.

(** [String(n)] for an integer [n]. *)
Definition numberToString (n : Z) : jsstring :=
  if n <? 0
  then 45 :: digitsFuel (S (Z.to_nat (Z.log2 (- n)))) (- n) []
  else digitsFuel (S (Z.to_nat (Z.log2 n))) n [].

(** [s.padStart(2, "0")] generalised to any target length. *)
Definition padStart (target : nat) (fill : Z) (s : jsstring) : jsstring :=
  repeat fill (target - len s) ++ s.

(** The longest prefix of decimal digits, as a number, and how many
    characters it took. *)
Fixpoint readDigits (s : jsstring) (acc : Z) (taken : nat) : Z * nat :=
  match s with
  | c :: s' => if isDigit c then readDigits s' (acc * 10 + (c - 48)) (S taken)
               else (acc, taken)
  | [] => (acc, taken)
  end.

(** The code units [String.prototype.trim], the regex class [\s] and
    [parseInt] treat as white space. *)
Definition isWhiteSpace (c : Z) : bool :=
  ((9 <=? c) && (c <=? 13)) || (c =? 32) || (c =? 160) || (c =? 5760)
  || ((8192 <=? c) && (c <=? 8202)) || (c =? 8232) || (c =? 8233)
  || (c =? 8239) || (c =? 8287) || (c =? 12288) || (c =? 65279).

Fixpoint dropWhile (p : Z -> bool) (s : jsstring) : jsstring :=
  match s with
  | c :: s' => if p c then dropWhile p s' else s
  | [] => []
  end.

(** [parseInt(s, 10)]; [None] stands for [NaN]. *)
Definition parseInt (s : jsstring) : option Z :=
  let s1 := dropWhile isWhiteSpace s in
  let '(neg, s2) :=
    match s1 with
    | 45 :: r => (true, r)
    | 43 :: r => (false, r)
    | _ => (false, s1)
    end in
  match readDigits s2 0 O with
  | (_, O) => None
  | (v, _) => Some (if neg then - v else v)
  end.

(* ================================================================== *)
(** ** ECMAScript date algorithms (ECMA-262, Date objects) *)

Definition msPerDay : Z := 86400000.
Definition msPerHour : Z := 3600000.
Definition msPerMinute : Z := 60000.
Definition msPerSecond : Z := 1000.

Definition Day (t : Z) : Z := t / msPerDay.
Definition TimeWithinDay (t : Z) : Z := t mod msPerDay.

Definition isLeapYear (y : Z) : bool :=
  ((y mod 4 =? 0) && negb (y mod 100 =? 0)) || (y mod 400 =? 0).

Definition DaysInYear (y : Z) : Z := if isLeapYear y then 366 else 365.

Definition DayFromYear (y : Z) : Z :=
  365 * (y - 1970) + (y - 1969) / 4 - (y - 1901) / 100 + (y - 1601) / 400.

(** The year containing day number [d]: the largest [y] with
    [DayFromYear y <= d].  The quotient by the mean year length is off
    by at most one. *)
Definition YearFromDay (d : Z) : Z :=
  let y0 := 1970 + (d * 400) / 146097 in
  if DayFromYear (y0 + 1) <=? d then y0 + 1
  else if DayFromYear y0 <=? d then y0
  else y0 - 1.

Definition YearFromTime (t : Z) : Z := YearFromDay (Day t).

Definition DayWithinYear (t : Z) : Z := Day t - DayFromYear (YearFromTime t).

(** Number of days before the first day of month [m] (0 = January). *)
Definition daysBeforeMonth (leap : bool) (m : Z) : Z :=
  let l := if leap then 1 else 0 in
  match m with
  | 0 => 0
  | 1 => 31
  | 2 => 59 + l
  | 3 => 90 + l
  | 4 => 120 + l
  | 5 => 151 + l
  | 6 => 181 + l
  | 7 => 212 + l
  | 8 => 243 + l
  | 9 => 273 + l
  | 10 => 304 + l
  | _ => 334 + l
  end.

Definition monthOfYearDay (leap : bool) (d : Z) : Z :=
  if d <? daysBeforeMonth leap 1 then 0
  else if d <? daysBeforeMonth leap 2 then 1
  else if d <? daysBeforeMonth leap 3 then 2
  else if d <? daysBeforeMonth leap 4 then 3
  else if d <? daysBeforeMonth leap 5 then 4
  else if d <? daysBeforeMonth leap 6 then 5
  else if d <? daysBeforeMonth leap 7 then 6
  else if d <? daysBeforeMonth leap 8 then 7
  else if d <? daysBeforeMonth leap 9 then 8
  else if d <? daysBeforeMonth leap 10 then 9
  else if d <? daysBeforeMonth leap 11 then 10
  else 11.

Definition MonthFromTime (t : Z) : Z :=
  monthOfYearDay (isLeapYear (YearFromTime t)) (DayWithinYear t).

Definition DateFromTime (t : Z) : Z :=
  DayWithinYear t
  - daysBeforeMonth (isLeapYear (YearFromTime t)) (MonthFromTime t) + 1.

Definition HourFromTime (t : Z) : Z := (t / msPerHour) mod 24.
Definition MinFromTime (t : Z) : Z := (t / msPerMinute) mod 60.
Definition SecFromTime (t : Z) : Z := (t / msPerSecond) mod 60.
Definition msFromTime (t : Z) : Z := t mod msPerSecond.

Definition MakeTime (h m s ms : Z) : Z :=
  h * msPerHour + m * msPerMinute + s * msPerSecond + ms.

Definition MakeDay (year month date : Z) : Z :=
  let ym := year + month / 12 in
  let mn := month mod 12 in
  DayFromYear ym + daysBeforeMonth (isLeapYear ym) mn + date - 1.

Definition MakeDate (day time : Z) : Z := day * msPerDay + time.

(** [TimeClip]; [None] stands for [NaN]. *)
Definition TimeClip (t : Z) : option Z :=
  if Z.abs t <=? 8640000000000000 then Some t else None.

(** Years 0..99 given to the [Date] constructor or to [Date.UTC] mean
    1900..1999. *)
Definition fullYear (y : Z) : Z :=
  if (0 <=? y) && (y <=? 99) then 1900 + y else y.

(** [Date.UTC(year, month, date, hours, minutes, seconds)]. *)
Definition DateUTC (y m d h mi s : Z) : option Z :=
  TimeClip (MakeDate (MakeDay (fullYear y) m d) (MakeTime h mi s 0)).

(** The calendar fields of a time value: year, month (1-12), day, hour,
    minute, second. *)
Definition civilFields (t : Z) : Z * Z * Z * Z * Z * Z :=
  (YearFromTime t, MonthFromTime t + 1, DateFromTime t,
   HourFromTime t, MinFromTime t, SecFromTime t).

(** The integers [lo], [lo + 1], ..., [lo + n - 1]. *)
Definition zrange (lo n : Z) : list Z :=
  map (fun k => lo + Z.of_nat k) (seq 0 (Z.to_nat n)).

(* ================================================================== *)
(** ** Values, exceptions and the host environment *)

(** A JavaScript number that is an integer or [NaN] ([None]). *)
Definition number := option Z.

Definition nmap2 (f : Z -> Z -> Z) (a b : number) : number :=
  match a, b with
  | Some x, Some y => Some (f x y)
  | _, _ => None
  end.

(** [a === k] and [a < k] for an integer constant [k]; both are false
    of [NaN] and of [null]. *)
Definition strictEq (a : option Z) (k : Z) : bool :=
  match a with
  | Some x => x =? k
  | None => false
  end.

Definition lessThan (a : number) (k : Z) : bool :=
  match a with
  | Some x => x <? k
  | None => false
  end.

(** [a ?? b] where [a] may be [null] or [undefined] and [b] is a number. *)
Definition nullish (a : option Z) (b : number) : number :=
  match a with
  | Some x => Some x
  | None => b
  end.

(** A [Date] object: a time value in milliseconds since the epoch, or
    the invalid date (time value [NaN]). *)
Inductive Date : Type :=
| InvalidDate
| TimeValue (t : Z).

Definition getTime (d : Date) : number :=
  match d with
  | InvalidDate => None
  | TimeValue t => Some t
  end.

(** [new Date(value)] for a numeric time value. *)
Definition newDateOfValue (v : number) : Date :=
  match v with
  | Some t => match TimeClip t with Some t' => TimeValue t' | None => InvalidDate end
  | None => InvalidDate
  end.

Inductive exn : Type :=
| RangeError (message : jsstring).

Definition message (e : exn) : jsstring :=
  match e with RangeError m => m end.

Inductive result (A : Type) : Type :=
| Ok (a : A)
| Throw (e : exn).
Arguments Ok {A} a.
Arguments Throw {A} e.

Definition bind {A B : Type} (r : result A) (k : A -> result B) : result B :=
  match r with
  | Ok a => k a
  | Throw e => Throw e
  end.

Notation "x <- r ;; k" := (bind r (fun x => k))
  (at level 61, r at next level, right associativity).

(** The value a function returns where JavaScript distinguishes [null],
    [undefined] and a string. *)
Inductive jsval : Type :=
| JNull
| JUndefined
| JStr (s : jsstring).

(** What the rules provider knows about one zone: the UTC offset it
    observes at an instant (in whole minutes, positive east of UTC) and
    the long display name used at that instant, if it has one. *)
Record ZoneRules : Type := {
  offsetAt : Z -> Z;
  longNameAt : Z -> option jsstring
}.

(** Raw components of a [chrono-node] match: [components.get(name)] is a
    number, or [null] when the component is absent. *)
Record Components : Type := {
  c_year : option Z;
  c_month : option Z;
  c_day : option Z;
  c_hour : option Z;
  c_minute : option Z;
  c_second : option Z;
  c_meridiem : option Z
}.

Record ParsedResult : Type := {
  r_start : Components;
  r_end : option Components
}.

(** The host: the local time zone of the [Date] getters and constructor
    ([LocalTZA(t, isUTC)] of ECMA-262, in milliseconds), the system
    clock read by [new Date()], the zone database behind
    [Intl.DateTimeFormat] ([None]: the identifier is rejected with a
    [RangeError]), whether the engine prints midnight as hour 24 under
    [hour12: false], and [chrono.parse] ([None]: a falsy result). *)
Record Host : Type := {
  localTZA : Z -> bool -> Z;
  clock : Z;
  timeZones : jsstring -> option ZoneRules;
  midnightAs24 : bool;
  chronoParse : jsstring -> Date -> option (list ParsedResult)
}.

(** The six arguments of [new Date(year, month, day, hour, minute, second)]. *)
Record DateArgs : Type := {
  a_year : number;
  a_month : number;
  a_day : number;
  a_hour : number;
  a_minute : number;
  a_second : number
}.

(** One entry of [formatToParts]. *)
Record Part : Type := {
  ptype : jsstring;
  pvalue : jsstring
}.

(** The object [parseSelectedText] returns. *)
Record Parsed : Type := {
  p_start : Date;
  p_end : option Date;
  hasRange : bool
}.

(** The object [convertParsed] returns. *)
Record Converted : Type := {
  startUTC : Date;
  endUTC : option Date;
  displayDate : jsstring;
  displayTime : jsstring;
  displayTZ : jsstring
}.

(** The dialog elements [updateResult] writes. *)
Record ResultView : Type := {
  resultDate : jsstring;
  resultTime : jsstring;
  resultTZ : jsstring;
  copyText : option jsstring
}.

(** The ECMAScript date-time string format, in the one shape
    [wallClockToUTC] builds: [YYYY-MM-DDTHH:mm:ssZ].  Any other string
    is outside the format, where parsing is implementation-defined; it
    is modelled as the invalid date.  (Engines differ on a day past the
    end of its month; the [Date] getters never produce one.) *)
Definition twoDigits (a b : Z) : option Z :=
  if isDigit a && isDigit b then Some ((a - 48) * 10 + (b - 48)) else None.

Definition DateParse (s : jsstring) : Date :=
  match s with
  | [y1; y2; y3; y4; 45; m1; m2; 45; d1; d2; 84; h1; h2; 58; n1; n2; 58; s1; s2; 90] =>
      match twoDigits y1 y2, twoDigits y3 y4, twoDigits m1 m2, twoDigits d1 d2,
            twoDigits h1 h2, twoDigits n1 n2, twoDigits s1 s2 with
      | Some yh, Some yl, Some mo, Some d, Some h, Some mi, Some sec =>
          let y := yh * 100 + yl in
          if (1 <=? mo) && (mo <=? 12) && (1 <=? d) && (d <=? 31)
             && (mi <=? 59) && (sec <=? 59)
             && ((h <=? 23) || ((h =? 24) && (mi =? 0) && (sec =? 0)))
          then newDateOfValue
                 (Some (MakeDate (MakeDay y (mo - 1) d) (MakeTime h mi sec 0)))
          else InvalidDate
      | _, _, _, _, _, _, _ => InvalidDate
      end
  | _ => InvalidDate
  end.

(** [String(x)] for a number. *)
Definition String_ (x : number) : jsstring :=
  match x with
  | Some n => numberToString n
  | None => lit "NaN"
  end.

Definition monthNames : list string :=
  ["January"; "February"; "March"; "April"; "May"; "June"; "July";
   "August"; "September"; "October"; "November"; "December"]%string.

Definition monthLong (m : Z) : jsstring :=
  lit (nth (Z.to_nat m) monthNames ""%string).

(** The year as [Intl] prints it in the Gregorian calendar without an
    era: years before 1 are counted backwards from 1. *)
Definition eraYear (y : Z) : Z := if y <=? 0 then 1 - y else y.

Definition mkPart (ty : string) (v : jsstring) : Part :=
  {| ptype := lit ty; pvalue := v |}.

Definition pad2 (n : Z) : jsstring := padStart 2 48 (numberToString n).

(** The error [Intl.DateTimeFormat] throws at a zone it does not know. *)
Definition invalidTimeZone (tz : jsstring) : exn :=
  RangeError (lit "Invalid time zone specified: " ++ tz).

(* ================================================================== *)
(** ** The host's [Date] and [Intl.DateTimeFormat], and [parser.js] *)

Section Parser.

Variable host : Host.

(** *** [Date] in the host's local zone *)

Definition LocalTime (t : Z) : Z := t + localTZA host t true.
Definition UTC (t : Z) : Z := t - localTZA host t false.

Definition localField (f : Z -> Z) (d : Date) : number :=
  match d with
  | InvalidDate => None
  | TimeValue t => Some (f (LocalTime t))
  end.

Definition getFullYear : Date -> number := localField YearFromTime.
Definition getMonth : Date -> number := localField MonthFromTime.
Definition getDate : Date -> number := localField DateFromTime.
Definition getHours : Date -> number := localField HourFromTime.
Definition getMinutes : Date -> number := localField MinFromTime.
Definition getSeconds : Date -> number := localField SecFromTime.

(** [new Date(year, month, day, hour, minute, second)]: the fields are
    read as local time. *)
Definition newDateLocal (a : DateArgs) : Date :=
  match a_year a, a_month a, a_day a, a_hour a, a_minute a, a_second a with
  | Some y, Some m, Some d, Some h, Some mi, Some s =>
      newDateOfValue
        (Some (UTC (MakeDate (MakeDay (fullYear y) m d) (MakeTime h mi s 0))))
  | _, _, _, _, _, _ => InvalidDate
  end.

(** [new Date()]. *)
Definition newDateNow : Date := TimeValue (clock host).

(** *** [Intl.DateTimeFormat("en-US", { timeZone: tz, ... })] *)

Definition newDateTimeFormat (tz : jsstring) : result ZoneRules :=
  match timeZones host tz with
  | Some rules => Ok rules
  | None => Throw (invalidTimeZone tz)
  end.

(** The zone's civil time at instant [t], as a time value. *)
Definition zoneLocalTime (rules : ZoneRules) (t : Z) : Z :=
  t + offsetAt rules t * msPerMinute.

Definition invalidTimeValue {A : Type} : result A :=
  Throw (RangeError (lit "Invalid time value")).

(** [formatToParts] under the options of [getUtcOffset]: two-digit
    month, day, hour, minute and second, numeric year, [hour12: false]. *)
Definition formatToPartsNumeric (rules : ZoneRules) (d : Date)
  : result (list Part) :=
  match d with
  | InvalidDate => invalidTimeValue
  | TimeValue t =>
      let lt := zoneLocalTime rules t in
      let h := HourFromTime lt in
      let h' := if midnightAs24 host && (h =? 0) then 24 else h in
      Ok [ mkPart "month" (pad2 (MonthFromTime lt + 1));
           mkPart "literal" (lit "/");
           mkPart "day" (pad2 (DateFromTime lt));
           mkPart "literal" (lit "/");
           mkPart "year" (numberToString (eraYear (YearFromTime lt)));
           mkPart "literal" (lit ", ");
           mkPart "hour" (pad2 h');
           mkPart "literal" (lit ":");
           mkPart "minute" (pad2 (MinFromTime lt));
           mkPart "literal" (lit ":");
           mkPart "second" (pad2 (SecFromTime lt)) ]
  end.

(** [format] under [{ hour: "numeric", minute: "2-digit" }]: the en-US
    twelve-hour clock, as in "6:00 AM" (with an ordinary space, as the
    repository's tests expect). *)
Definition formatTimeShort (rules : ZoneRules) (d : Date) : result jsstring :=
  match d with
  | InvalidDate => invalidTimeValue
  | TimeValue t =>
      let lt := zoneLocalTime rules t in
      let h := HourFromTime lt in
      let h12 := if h mod 12 =? 0 then 12 else h mod 12 in
      Ok (numberToString h12 ++ lit ":" ++ pad2 (MinFromTime lt)
          ++ lit " " ++ (if h <? 12 then lit "AM" else lit "PM"))
  end.

(** [format] under [{ month: "long", day: "numeric", year: "numeric" }],
    as in "February 18, 2025". *)
Definition formatDateLong (rules : ZoneRules) (d : Date) : result jsstring :=
  match d with
  | InvalidDate => invalidTimeValue
  | TimeValue t =>
      let lt := zoneLocalTime rules t in
      Ok (monthLong (MonthFromTime lt) ++ lit " "
          ++ numberToString (DateFromTime lt) ++ lit ", "
          ++ numberToString (eraYear (YearFromTime lt)))
  end.

(** [formatToParts] under [{ timeZoneName: "long" }]: the default
    numeric date followed by the zone's name. *)
Definition formatToPartsZoneName (rules : ZoneRules) (d : Date)
  : result (list Part) :=
  match d with
  | InvalidDate => invalidTimeValue
  | TimeValue t =>
      let lt := zoneLocalTime rules t in
      Ok ([ mkPart "month" (numberToString (MonthFromTime lt + 1));
            mkPart "literal" (lit "/");
            mkPart "day" (numberToString (DateFromTime lt));
            mkPart "literal" (lit "/");
            mkPart "year" (numberToString (eraYear (YearFromTime lt))) ]
          ++ match longNameAt rules t with
             | Some name => [ mkPart "literal" (lit ", ");
                              mkPart "timeZoneName" name ]
             | None => []
             end)
  end.

(** [parts.find((p) => p.type === type)?.value]. *)
Definition findPart (parts : list Part) (type : string) : option jsstring :=
  option_map pvalue (find (fun p => streq (ptype p) (lit type)) parts).

(** *** [src/shared/parser.js] *)

(** [/[|—•]/g] replaced by [", "]. *)
Definition isSeparator (c : Z) : bool :=
  (c =? 124) || (c =? 8212) || (c =? 8226).

Fixpoint replaceSeparators (s : jsstring) : jsstring :=
  match s with
  | [] => []
  | c :: r => if isSeparator c then 44 :: 32 :: replaceSeparators r
              else c :: replaceSeparators r
  end.

Fixpoint countWhile (p : Z -> bool) (s : jsstring) : nat :=
  match s with
  | c :: r => if p c then S (countWhile p r) else O
  | [] => O
  end.

(** [/,\s*,/g] replaced by [","].  [skip] is the number of characters
    still covered by the match just replaced. *)
Fixpoint collapseCommas (s : jsstring) (skip : nat) : jsstring :=
  match s with
  | [] => []
  | c :: r =>
      match skip with
      | S k => collapseCommas r k
      | O =>
          if c =? 44 then
            match dropWhile isWhiteSpace r with
            | 44 :: _ => 44 :: collapseCommas r (S (countWhile isWhiteSpace r))
            | _ => c :: collapseCommas r O
            end
          else c :: collapseCommas r O
      end
  end.

(** [/\s{2,}/g] replaced by [" "]. *)
Fixpoint collapseSpaces (s : jsstring) (skip : nat) : jsstring :=
  match s with
  | [] => []
  | c :: r =>
      match skip with
      | S k => collapseSpaces r k
      | O =>
          if isWhiteSpace c then
            match countWhile isWhiteSpace r with
            | O => c :: collapseSpaces r O
            | S n => 32 :: collapseSpaces r (S n)
            end
          else c :: collapseSpaces r O
      end
  end.

Definition trim (s : jsstring) : jsstring :=
  rev (dropWhile isWhiteSpace (rev (dropWhile isWhiteSpace s))).

Definition normalizeForChrono (text : jsstring) : jsstring :=
  trim (collapseSpaces (collapseCommas (replaceSeparators text) O) O).

(** The arguments [componentsToWallClock] passes to [new Date(...)]. *)
Definition wallClockArgs (components : Components) (ref : option Date)
  : DateArgs :=
  let now := match ref with Some d => d | None => newDateNow end in
  let year := nullish (c_year components) (getFullYear now) in
  let month :=
    nmap2 Z.sub
      (nullish (c_month components) (nmap2 Z.add (getMonth now) (Some 1)))
      (Some 1) in
  let day := nullish (c_day components) (getDate now) in
  let hour := nullish (c_hour components) (Some 12) in
  let minute := nullish (c_minute components) (Some 0) in
  let second := nullish (c_second components) (Some 0) in
  let meridiem := c_meridiem components in
  let hour :=
    if strictEq meridiem 1 && lessThan hour 12
    then nmap2 Z.add hour (Some 12) else hour in
  let hour :=
    if strictEq meridiem 0 && strictEq hour 12 then Some 0 else hour in
  {| a_year := year; a_month := month; a_day := day;
     a_hour := hour; a_minute := minute; a_second := second |}.

Definition componentsToWallClock (components : Components) (ref : option Date)
  : Date :=
  newDateLocal (wallClockArgs components ref).

(** [parseInt(parts.find((p) => p.type === type)?.value ?? "0", 10)]. *)
Definition getPart (parts : list Part) (type : string) : number :=
  parseInt (match findPart parts type with
            | Some v => v
            | None => lit "0"
            end).

(** The quotient by 60000 is exact whenever [utcDate] holds a whole
    number of seconds, which is how [wallClockToUTC] calls this
    function ([getUtcOffset_estimate]). *)
Definition getUtcOffset (utcDate : Date) (tz : jsstring) : result number :=
  fmt <- newDateTimeFormat tz ;;
  parts <- formatToPartsNumeric fmt utcDate ;;
  let get := getPart parts in
  let h := get "hour"%string in
  let h := if strictEq h 24 then Some 0 else h in
  let localInTz :=
    match get "year"%string, get "month"%string, get "day"%string, h,
          get "minute"%string, get "second"%string with
    | Some y, Some mo, Some d, Some h, Some mi, Some s =>
        DateUTC y (mo - 1) d h mi s
    | _, _, _, _, _, _ => None
    end in
  Ok (nmap2 Z.div (nmap2 Z.sub localInTz (getTime utcDate)) (Some 60000)).

Definition wallClockToUTC (parsedDate : Date) (fromTZ : jsstring)
  : result Date :=
  let y := getFullYear parsedDate in
  let mo := nmap2 Z.add (getMonth parsedDate) (Some 1) in
  let d := getDate parsedDate in
  let h := getHours parsedDate in
  let mi := getMinutes parsedDate in
  let s := getSeconds parsedDate in
  let p2 x := padStart 2 48 (String_ x) in
  let isoStr :=
    String_ y ++ lit "-" ++ p2 mo ++ lit "-" ++ p2 d ++ lit "T"
    ++ p2 h ++ lit ":" ++ p2 mi ++ lit ":" ++ p2 s ++ lit "Z" in
  let utcEstimate := DateParse isoStr in
  offset <- getUtcOffset utcEstimate fromTZ ;;
  Ok (newDateOfValue
        (nmap2 Z.sub (getTime utcEstimate)
           (nmap2 Z.mul (nmap2 Z.mul offset (Some 60)) (Some 1000)))).

Definition parseSelectedText (text : jsstring) : option Parsed :=
  let ref := newDateNow in
  let normalized := normalizeForChrono text in
  match chronoParse host normalized ref with
  | None => None
  | Some [] => None
  | Some (result :: _) =>
      let start := componentsToWallClock (r_start result) (Some ref) in
      let end_ :=
        match r_end result with
        | Some e => Some (componentsToWallClock e (Some ref))
        | None => None
        end in
      Some {| p_start := start;
              p_end := end_;
              hasRange := match end_ with Some _ => true | None => false end |}
  end.

Definition convertParsed (parsed : Parsed) (fromTZ toTZ : jsstring)
  : result Converted :=
  startUTC <- wallClockToUTC (p_start parsed) fromTZ ;;
  endUTC <- match p_end parsed with
            | Some e => (u <- wallClockToUTC e fromTZ ;; Ok (Some u))
            | None => Ok None
            end ;;
  dateFmt <- newDateTimeFormat toTZ ;;
  displayDate <- formatDateLong dateFmt startUTC ;;
  startTimeFmt <- newDateTimeFormat toTZ ;;
  endTimeFmt <- newDateTimeFormat toTZ ;;
  startTimeStr <- formatTimeShort startTimeFmt startUTC ;;
  endTimeStr <- match endUTC with
                | Some u => (s <- formatTimeShort endTimeFmt u ;; Ok (Some s))
                | None => Ok None
                end ;;
  let displayTime :=
    match endTimeStr with
    | Some e => startTimeStr ++ [32; 8211; 32] ++ e
    | None => startTimeStr
    end in
  tzFmt <- newDateTimeFormat toTZ ;;
  tzParts <- formatToPartsZoneName tzFmt startUTC ;;
  let displayTZ :=
    match findPart tzParts "timeZoneName" with
    | Some v => v
    | None => toTZ
    end in
  Ok {| startUTC := startUTC; endUTC := endUTC; displayDate := displayDate;
        displayTime := displayTime; displayTZ := displayTZ |}.

(** *** [updateResult] of [src/content/dialog.js] *)

Definition updateResult (parsed : Parsed) (from to : jsstring)
  (view : ResultView) : ResultView :=
  match convertParsed parsed from to with
  | Ok conv =>
      {| resultDate := displayDate conv;
         resultTime := displayTime conv;
         resultTZ := displayTZ conv;
         copyText := Some (displayDate conv ++ [10] ++ displayTime conv
                           ++ lit " " ++ displayTZ conv) |}
  | Throw e =>
      {| resultDate := [];
         resultTime := lit "Conversion error";
         resultTZ := message e;
         copyText := copyText view |}
  end.

(** The calendar fields [wallClockToUTC] reads off a wall-clock date
    with the six local getters. *)
Definition wallClockFields (d : Date) : option (Z * Z * Z * Z * Z * Z) :=
  match d with
  | InvalidDate => None
  | TimeValue t => Some (civilFields (LocalTime t))
  end.

(** The civil time of an instant in a zone, as the rules provider
    reports it: the fields behind every [format] and [formatToParts]
    above. *)
Definition zoneCivilFields (instant : Date) (tz : jsstring)
  : result (Z * Z * Z * Z * Z * Z) :=
  rules <- newDateTimeFormat tz ;;
  match instant with
  | InvalidDate => invalidTimeValue
  | TimeValue t => Ok (civilFields (zoneLocalTime rules t))
  end.

(** The wall-clock time value the arguments of [new Date(...)] denote. *)
Definition wallValue (a : DateArgs) : option Z :=
  match a_year a, a_month a, a_day a, a_hour a, a_minute a, a_second a with
  | Some y, Some m, Some d, Some h, Some mi, Some s =>
      Some (MakeDate (MakeDay (fullYear y) m d) (MakeTime h mi s 0))
  | _, _, _, _, _, _ => None
  end.

(** The host's zone has the wall-clock time of [a]: the date it builds
    from [a] is valid and reads [a] back as its local time. *)
Definition hostHasWallClock (a : DateArgs) : Prop :=
  exists w t,
    wallValue a = Some w /\ newDateLocal a = TimeValue t /\ LocalTime t = w.

End Parser.

(* ================================================================== *)
(** ** [src/content/timezone-data.js] *)

(** The alias table, in insertion order.  No key occurs twice
    ([TIMEZONE_MAP_keys_distinct]), so the entry list is the [Map]. *)
Definition TIMEZONE_ENTRIES : list (string * string) :=
  [
    (* US timezones - long forms first (regex matches longest first) *)
    ("Eastern Standard Time", "America/New_York");
    ("Eastern Daylight Time", "America/New_York");
    ("Eastern Time", "America/New_York");
    ("Eastern", "America/New_York");
    ("EST", "America/New_York");
    ("EDT", "America/New_York");
    ("ET", "America/New_York");
    ("Central Standard Time", "America/Chicago");
    ("Central Daylight Time", "America/Chicago");
    ("Central Time", "America/Chicago");
    ("Central", "America/Chicago");
    ("CST", "America/Chicago");
    ("CDT", "America/Chicago");
    ("CT", "America/Chicago");
    ("Mountain Standard Time", "America/Denver");
    ("Mountain Daylight Time", "America/Denver");
    ("Mountain Time", "America/Denver");
    ("Mountain", "America/Denver");
    ("MST", "America/Denver");
    ("MDT", "America/Denver");
    ("MT", "America/Denver");
    ("Pacific Standard Time", "America/Los_Angeles");
    ("Pacific Daylight Time", "America/Los_Angeles");
    ("Pacific Time", "America/Los_Angeles");
    ("Pacific", "America/Los_Angeles");
    ("PST", "America/Los_Angeles");
    ("PDT", "America/Los_Angeles");
    ("PT", "America/Los_Angeles");
    ("Alaska Standard Time", "America/Anchorage");
    ("Alaska Daylight Time", "America/Anchorage");
    ("Alaska Time", "America/Anchorage");
    ("Alaska", "America/Anchorage");
    ("AKST", "America/Anchorage");
    ("AKDT", "America/Anchorage");
    ("AKT", "America/Anchorage");
    ("Hawaii Standard Time", "Pacific/Honolulu");
    ("Hawaii Time", "Pacific/Honolulu");
    ("Hawaii", "Pacific/Honolulu");
    ("HST", "Pacific/Honolulu");
    ("HT", "Pacific/Honolulu");
    ("Atlantic Standard Time", "America/Halifax");
    ("Atlantic Daylight Time", "America/Halifax");
    ("Atlantic Time", "America/Halifax");
    ("Atlantic", "America/Halifax");
    ("AST", "America/Halifax");
    ("ADT", "America/Halifax");
    ("AT", "America/Halifax");
    (* UTC / GMT *)
    ("UTC", "UTC");
    ("GMT", "GMT");
    (* Europe *)
    ("Central European Summer Time", "Europe/Paris");
    ("Central European Time", "Europe/Paris");
    ("CEST", "Europe/Paris");
    ("CET", "Europe/Paris");
    ("British Summer Time", "Europe/London");
    ("British", "Europe/London");
    ("BST", "Europe/London");
    ("Western European Summer Time", "Europe/Lisbon");
    ("Western European Time", "Europe/Lisbon");
    ("WEST", "Europe/Lisbon");
    ("WET", "Europe/Lisbon");
    ("Eastern European Summer Time", "Europe/Helsinki");
    ("Eastern European Time", "Europe/Helsinki");
    ("EEST", "Europe/Helsinki");
    ("EET", "Europe/Helsinki");
    (* Asia *)
    ("IST", "Asia/Kolkata");
    ("India", "Asia/Kolkata");
    ("Indian Standard Time", "Asia/Kolkata");
    ("JST", "Asia/Tokyo");
    ("Japan", "Asia/Tokyo");
    ("Japan Standard Time", "Asia/Tokyo");
    ("KST", "Asia/Seoul");
    ("Korea", "Asia/Seoul");
    ("Korea Standard Time", "Asia/Seoul");
    ("CST+8", "Asia/Shanghai");
    ("China", "Asia/Shanghai");
    ("China Standard Time", "Asia/Shanghai");
    ("SGT", "Asia/Singapore");
    ("Singapore", "Asia/Singapore");
    ("Singapore Time", "Asia/Singapore");
    ("HKT", "Asia/Hong_Kong");
    ("Hong Kong", "Asia/Hong_Kong");
    ("ICT", "Asia/Bangkok");
    ("Indochina", "Asia/Bangkok");
    ("PKT", "Asia/Karachi");
    ("Pakistan", "Asia/Karachi");
    (* Australia *)
    ("AEST", "Australia/Sydney");
    ("AEDT", "Australia/Sydney");
    ("Australian Eastern Time", "Australia/Sydney");
    ("Australian Eastern Standard Time", "Australia/Sydney");
    ("Australian Eastern Daylight Time", "Australia/Sydney");
    ("ACST", "Australia/Adelaide");
    ("ACDT", "Australia/Adelaide");
    ("Australian Central Time", "Australia/Adelaide");
    ("AWST", "Australia/Perth");
    ("Australian Western Time", "Australia/Perth");
    ("Australian Western Standard Time", "Australia/Perth");
    (* Pacific *)
    ("NZST", "Pacific/Auckland");
    ("NZDT", "Pacific/Auckland");
    ("New Zealand", "Pacific/Auckland");
    ("New Zealand Standard Time", "Pacific/Auckland");
    ("New Zealand Daylight Time", "Pacific/Auckland");
    (* South America *)
    ("BRT", "America/Sao_Paulo");
    ("Brazil", "America/Sao_Paulo");
    ("Brasilia", "America/Sao_Paulo");
    ("ART", "America/Argentina/Buenos_Aires");
    ("Argentina", "America/Argentina/Buenos_Aires")
  ]%string.

Definition TIMEZONE_MAP : list (jsstring * jsstring) :=
  Eval vm_compute in map (fun e => (lit (fst e), lit (snd e))) TIMEZONE_ENTRIES.

(** [TIMEZONE_MAP.keys()]. *)
Definition mapKeys : list jsstring := map fst TIMEZONE_MAP.

(** [TIMEZONE_MAP.get(key)]. *)
Definition mapGet (key : jsstring) : jsval :=
  match find (fun e => streq (fst e) key) TIMEZONE_MAP with
  | Some e => JStr (snd e)
  | None => JUndefined
  end.

(** [Array.prototype.sort] is stable; with the comparator
    [(a, b) => b.length - a.length] a key goes before the first key that
    is not longer than it. *)
Fixpoint insertByLength (k : jsstring) (sorted : list jsstring)
  : list jsstring :=
  match sorted with
  | [] => [k]
  | x :: r => if (len x <=? len k)%nat then k :: sorted
              else x :: insertByLength k r
  end.

Definition sortByLengthDesc (l : list jsstring) : list jsstring :=
  fold_right insertByLength [] l.

Definition SORTED_KEYS : list jsstring :=
  Eval vm_compute in sortByLengthDesc mapKeys.

(** [a] is at least as long as [b]: the order of [SORTED_KEYS]. *)
Definition noShorter (a b : jsstring) : Prop := (len b <= len a)%nat.

(** No two strings of the list have the same image under [f]. *)
Fixpoint distinctBy (f : jsstring -> jsstring) (l : list jsstring) : bool :=
  match l with
  | [] => true
  | x :: r => negb (existsb (fun y => streq (f x) (f y)) r) && distinctBy f r
  end.

(** The value is the zone of some entry of the table. *)
Definition isTableValue (v : jsval) : bool :=
  match v with
  | JStr z => existsb (fun e => streq (snd e) z) TIMEZONE_MAP
  | _ => false
  end.

(** *** [TIMEZONE_REGEX]: [\bKEY\b] for every key, longest first, flags [gi] *)

(** The word characters behind [\b] (the pattern has no [u] flag). *)
Definition isWordChar (c : Z) : bool :=
  isUpperAZ c || isLowerAZ c || isDigit c || (c =? 95).

Definition isWordAt (c : option Z) : bool :=
  match c with
  | Some x => isWordChar x
  | None => false
  end.

(** [\b] between the character before the position and the one at it. *)
Definition wordBoundary (before at_ : option Z) : bool :=
  xorb (isWordAt before) (isWordAt at_).

(** Case folding of the [i] flag.  Without the [u] flag a code unit
    outside ASCII never folds into ASCII, so against an ASCII pattern
    character it can be left as it is. *)
Definition canonicalize (c : Z) : Z := upperChar c.

(** The escaped key is a literal: the characters of [key] one by one,
    compared up to case.  Returns the matched text and what follows. *)
Fixpoint matchLiteral (key s : jsstring) : option (jsstring * jsstring) :=
  match key with
  | [] => Some ([], s)
  | k :: key' =>
      match s with
      | c :: s' =>
          if canonicalize c =? canonicalize k then
            match matchLiteral key' s' with
            | Some (raw, rest) => Some (c :: raw, rest)
            | None => None
            end
          else None
      | [] => None
      end
  end.

Definition lastChar (before : option Z) (raw : jsstring) : option Z :=
  last (map Some raw) before.

(** The string starts and ends with a word character. *)
Definition wordEnded (k : jsstring) : bool :=
  isWordAt (hd_error k) && isWordAt (lastChar None k).

(** One alternative [\bKEY\b] tried at the start of [s], [before] being
    the character that precedes [s] in the text. *)
Definition matchAlternative (before : option Z) (s key : jsstring)
  : option jsstring :=
  if wordBoundary before (hd_error s) then
    match matchLiteral key s with
    | Some (raw, rest) =>
        if wordBoundary (lastChar before raw) (hd_error rest)
        then Some raw else None
    | None => None
    end
  else None.

(** The alternation: the first alternative that matches wins. *)
Fixpoint firstAlternative (before : option Z) (s : jsstring)
  (keys : list jsstring) : option jsstring :=
  match keys with
  | [] => None
  | key :: keys' =>
      match matchAlternative before s key with
      | Some raw => Some raw
      | None => firstAlternative before s keys'
      end
  end.

(** The alternatives of [TIMEZONE_REGEX], in order: one [\bKEY\b] per
    key of [SORTED_KEYS], every character of the key made literal by the
    escaping. *)
Definition TIMEZONE_REGEX : list jsstring := SORTED_KEYS.

(** The pattern tried at index [i], then at every later index. *)
Fixpoint execFrom (before : option Z) (s : jsstring) (i : nat)
  : option (nat * jsstring) :=
  match firstAlternative before s TIMEZONE_REGEX with
  | Some raw => Some (i, raw)
  | None =>
      match s with
      | [] => None
      | c :: s' => execFrom (Some c) s' (S i)
      end
  end.

Definition charBefore (text : jsstring) (i : nat) : option Z :=
  match i with
  | O => None
  | S j => nth_error text j
  end.

(** [TIMEZONE_REGEX.exec(text)] with the regex's [lastIndex] as state:
    the match (its index and text) and the new [lastIndex]. *)
Definition exec (text : jsstring) (lastIndex : nat)
  : option (nat * jsstring) * nat :=
  if (len text <? lastIndex)%nat then (None, O)
  else
    match execFrom (charBefore text lastIndex) (skipn lastIndex text) lastIndex with
    | Some (i, raw) => (Some (i, raw), (i + len raw)%nat)
    | None => (None, O)
    end.

Definition isFalsePositive (raw : jsstring) : bool :=
  let isShortWord := (len raw <=? 5)%nat && negb (includesChar 32 raw) in
  isShortWord && negb (streq raw (toUpperCase raw)).

(** The [for (const key of SORTED_KEYS)] search. *)
Definition findKey (lc : jsstring) : option jsstring :=
  find (fun key => streq (toLowerCase key) lc) SORTED_KEYS.

(** The [while] loop of [detectTimezone]; every iteration moves
    [lastIndex] forward, so [S (len text)] iterations are enough
    ([detectTimezone_total]).  [None]: out of fuel. *)
Fixpoint detectLoop (fuel : nat) (text : jsstring) (lastIndex : nat)
  : option (jsval * nat) :=
  match fuel with
  | O => None
  | S fuel' =>
      match exec text lastIndex with
      | (Some (_, raw), lastIndex') =>
          if isFalsePositive raw then detectLoop fuel' text lastIndex'
          else
            match findKey (toLowerCase raw) with
            | Some key => Some (mapGet key, lastIndex')
            | None => detectLoop fuel' text lastIndex'
            end
      | (None, lastIndex') => Some (JNull, lastIndex')
      end
  end.

(** [detectTimezone(text)], called when the shared regex holds
    [lastIndex]: the value returned and the [lastIndex] left behind. *)
Definition detectTimezone (lastIndex : nat) (text : jsstring)
  : option (jsval * nat) :=
  let lastIndex := O in
  detectLoop (S (len text)) text lastIndex.


(** The [n] characters at index [i] of [text] have a word character
    right before or right after them. *)
Definition insideWord (text : jsstring) (i n : nat) : Prop :=
  isWordAt (charBefore text i) = true
  \/ isWordAt (nth_error text (i + n)) = true.





(* ================================================================== *)
(** ** Sample hosts *)

(** The rules of four zones as they stand in the IANA database for
    2025: United States daylight time runs from 2025-03-09 02:00 to
    2025-11-02 02:00 local time. *)
Definition fixedZone (offset : Z) (name : string) : ZoneRules :=
  {| offsetAt := fun _ => offset; longNameAt := fun _ => Some (lit name) |}.

Definition usZone (standard : Z) (dstStart dstEnd : Z) (std dst : string)
  : ZoneRules :=
  let inDst t := (dstStart <=? t) && (t <? dstEnd) in
  {| offsetAt := fun t => if inDst t then standard + 60 else standard;
     longNameAt := fun t => Some (lit (if inDst t then dst else std)) |}.

Definition newYork2025 : ZoneRules :=
  usZone (-300) 1741503600000 1762063200000
    "Eastern Standard Time" "Eastern Daylight Time".

Definition losAngeles2025 : ZoneRules :=
  usZone (-480) 1741514400000 1762074000000
    "Pacific Standard Time" "Pacific Daylight Time".

Definition utcRules : ZoneRules := fixedZone 0 "Coordinated Universal Time".
Definition gmtRules : ZoneRules := fixedZone 0 "Greenwich Mean Time".

Definition zones2025 (tz : jsstring) : option ZoneRules :=
  if streq tz (lit "America/New_York") then Some newYork2025
  else if streq tz (lit "America/Los_Angeles") then Some losAngeles2025
  else if streq tz (lit "UTC") then Some utcRules
  else if streq tz (lit "GMT") then Some gmtRules
  else None.

(** A host whose own zone is the fixed offset [minutes], with the 2025
    rules above and an extractor that reports [found] on every text.
    The clock stands at 2025-02-18T09:00:00Z. *)
Definition sampleHost (minutes : Z) (found : list ParsedResult) : Host :=
  {| localTZA := fun _ _ => minutes * msPerMinute;
     clock := 1739869200000;
     timeZones := zones2025;
     midnightAs24 := false;
     chronoParse := fun _ _ => Some found |}.

Definition utcHost : Host := sampleHost 0 [].

(** [makeDate] of [test/index.js]. *)
Definition makeDate (host : Host) (y mo d h mi : Z) : Date :=
  newDateLocal host
    {| a_year := Some y; a_month := Some (mo - 1); a_day := Some d;
       a_hour := Some h; a_minute := Some mi; a_second := Some 0 |}.


Definition sixPM : Components :=
  {| c_year := Some 2025; c_month := Some 2; c_day := Some 19;
     c_hour := Some 6; c_minute := Some 0; c_second := Some 0;
     c_meridiem := Some 1 |}.


Definition NewYork : jsstring := lit "America/New_York".

(** *** The conversion fixtures of [test/index.js] *)

(** The instants of the year 2025 (UTC). *)
Definition in2025 (t : Z) : Prop := 1735689600000 <= t < 1767225600000.

(** The host knows the zone [tz] and, throughout 2025, gives it the
    offsets of [model]. *)
Definition observesIn2025 (host : Host) (tz : string) (model : ZoneRules)
  : Prop :=
  exists rules,
    timeZones host (lit tz) = Some rules
    /\ forall t, in2025 t -> offsetAt rules t = offsetAt model t.

(** [{ start: makeDate(y, mo, d, h, mi), end: null, hasRange: false }]. *)
Definition fixture (host : Host) (y mo d h mi : Z) : Parsed :=
  {| p_start := makeDate host y mo d h mi; p_end := None; hasRange := false |}.

(** The host's own zone has the fixture's wall-clock time: the date
    [makeDate] builds reads back the fields it was built from. *)
Definition readsBack (host : Host) (y mo d h mi : Z) : Prop :=
  wallClockFields host (makeDate host y mo d h mi) = Some (y, mo, d, h, mi, 0).

(** [convertParsed] returns, and its [displayTime] is [time]. *)
Definition displays (host : Host) (parsed : Parsed) (from to time : string)
  : Prop :=
  exists conv,
    convertParsed host parsed (lit from) (lit to) = Ok conv
    /\ displayTime conv = lit time.

(* ================================================================== *)
(** ** More of [parser.js], [timezone-data.js] and [dialog.js] *)

(** *** The other exports of [src/shared/parser.js] *)

(** [new Intl.DateTimeFormat("en-US", { timeZone: toTZ, ... }).format(d)]
    under options whose en-US text depends on the engine's locale data;
    [render] is that text for a zone's rules at a valid instant. *)
Definition formatWith (host : Host) (render : ZoneRules -> Z -> jsstring)
  (d : Date) (toTZ : jsstring) : result jsstring :=
  fmt <- newDateTimeFormat host toTZ ;;
  match d with
  | InvalidDate => invalidTimeValue
  | TimeValue t => Ok (render fmt t)
  end.

(** [convertTime]: the pair of [date] and [formatted]. *)
Definition convertTime (host : Host) (render : ZoneRules -> Z -> jsstring)
  (parsedDate : Date) (fromTZ toTZ : jsstring) : result (Date * jsstring) :=
  utc <- wallClockToUTC host parsedDate fromTZ ;;
  formatted <- formatWith host render utc toTZ ;;
  Ok (utc, formatted).

(** The en-US twelve-hour reading of a local time value, as
    [formatTimeShort] prints it. *)
Definition clockString (lt : Z) : jsstring :=
  let h := HourFromTime lt in
  let h12 := if h mod 12 =? 0 then 12 else h mod 12 in
  numberToString h12 ++ lit ":" ++ pad2 (MinFromTime lt)
  ++ lit " " ++ (if h <? 12 then lit "AM" else lit "PM").

(** The en-US long date of a local time value, as [formatDateLong]
    prints it. *)
Definition dateString (lt : Z) : jsstring :=
  monthLong (MonthFromTime lt) ++ lit " "
  ++ numberToString (DateFromTime lt) ++ lit ", "
  ++ numberToString (eraYear (YearFromTime lt)).

(** *** Predicates on normalised text *)

(** A character [normalizeForChrono] never touches: not white space,
    not a comma, not one of the three separators. *)
Definition isPayload (c : Z) : bool :=
  negb (isWhiteSpace c || (c =? 44) || isSeparator c).

(** No two white-space characters stand next to each other. *)
Definition noAdjacentSpace (s : jsstring) : Prop :=
  forall pre a b post,
    s = pre ++ a :: b :: post -> isWhiteSpace a && isWhiteSpace b = false.

(** The same, as a test. *)
Fixpoint noAdjacentSpaceb (s : jsstring) : bool :=
  match s with
  | a :: r =>
      match r with
      | b :: _ => negb (isWhiteSpace a && isWhiteSpace b) && noAdjacentSpaceb r
      | [] => true
      end
  | [] => true
  end.

Definition startsClean (s : jsstring) : Prop :=
  match s with
  | [] => True
  | c :: _ => isWhiteSpace c = false
  end.

(** Neither the first nor the last character is white space. *)
Definition trimmed (s : jsstring) : Prop :=
  startsClean s /\ startsClean (rev s).

(** Between any two commas there is something other than white space. *)
Definition noCommaPair (s : jsstring) : Prop :=
  forall pre mid post,
    s = pre ++ 44 :: mid ++ 44 :: post ->
    exists c, In c mid /\ isWhiteSpace c = false.

(** Two characters are the same, or both are separators. *)
Definition sameOrSeparators (a b : Z) : Prop :=
  a = b \/ (isSeparator a = true /\ isSeparator b = true).

(** *** The calendar, month by month *)

Definition DaysInMonth (leap : bool) (m : Z) : Z :=
  match m with
  | 1 => if leap then 29 else 28
  | 3 | 5 | 8 | 10 => 30
  | _ => 31
  end.

(** *** [ALL_TIMEZONES] of [src/content/timezone-data.js] *)

Definition ALL_TIMEZONE_NAMES : list string :=
  [
    (* UTC *)
    "UTC";
    (* Americas *)
    "America/Adak";
    "America/Anchorage";
    "America/Boise";
    "America/Chicago";
    "America/Denver";
    "America/Detroit";
    "America/Halifax";
    "America/Indiana/Indianapolis";
    "America/Indiana/Knox";
    "America/Indiana/Marengo";
    "America/Indiana/Petersburg";
    "America/Indiana/Tell_City";
    "America/Indiana/Vevay";
    "America/Indiana/Vincennes";
    "America/Indiana/Winamac";
    "America/Juneau";
    "America/Kentucky/Louisville";
    "America/Kentucky/Monticello";
    "America/Los_Angeles";
    "America/Menominee";
    "America/Metlakatla";
    "America/New_York";
    "America/Nome";
    "America/North_Dakota/Beulah";
    "America/North_Dakota/Center";
    "America/North_Dakota/New_Salem";
    "America/Phoenix";
    "America/Puerto_Rico";
    "America/Sitka";
    "America/St_Thomas";
    "America/Yakutat";
    "Pacific/Honolulu";
    "Pacific/Midway";
    "Pacific/Pago_Pago";
    (* Canada *)
    "America/Toronto";
    "America/Vancouver";
    "America/Winnipeg";
    "America/Edmonton";
    "America/Regina";
    "America/St_Johns";
    (* Mexico / Central America *)
    "America/Mexico_City";
    "America/Cancun";
    "America/Monterrey";
    "America/Bogota";
    "America/Lima";
    "America/Caracas";
    (* South America *)
    "America/Santiago";
    "America/Sao_Paulo";
    "America/Argentina/Buenos_Aires";
    "America/Montevideo";
    (* Atlantic *)
    "Atlantic/Azores";
    "Atlantic/Cape_Verde";
    "Atlantic/Reykjavik";
    (* Europe *)
    "Europe/London";
    "Europe/Lisbon";
    "Europe/Dublin";
    "Europe/Paris";
    "Europe/Berlin";
    "Europe/Rome";
    "Europe/Madrid";
    "Europe/Amsterdam";
    "Europe/Brussels";
    "Europe/Vienna";
    "Europe/Zurich";
    "Europe/Stockholm";
    "Europe/Oslo";
    "Europe/Copenhagen";
    "Europe/Warsaw";
    "Europe/Prague";
    "Europe/Budapest";
    "Europe/Bucharest";
    "Europe/Sofia";
    "Europe/Athens";
    "Europe/Helsinki";
    "Europe/Riga";
    "Europe/Tallinn";
    "Europe/Vilnius";
    "Europe/Kiev";
    "Europe/Minsk";
    "Europe/Moscow";
    "Europe/Samara";
    "Europe/Istanbul";
    (* Africa *)
    "Africa/Abidjan";
    "Africa/Cairo";
    "Africa/Casablanca";
    "Africa/Johannesburg";
    "Africa/Lagos";
    "Africa/Nairobi";
    (* Middle East *)
    "Asia/Dubai";
    "Asia/Riyadh";
    "Asia/Baghdad";
    "Asia/Tehran";
    "Asia/Jerusalem";
    "Asia/Beirut";
    "Asia/Kuwait";
    "Asia/Qatar";
    (* Asia *)
    "Asia/Karachi";
    "Asia/Kolkata";
    "Asia/Colombo";
    "Asia/Dhaka";
    "Asia/Kathmandu";
    "Asia/Almaty";
    "Asia/Tashkent";
    "Asia/Yekaterinburg";
    "Asia/Omsk";
    "Asia/Krasnoyarsk";
    "Asia/Novosibirsk";
    "Asia/Bangkok";
    "Asia/Ho_Chi_Minh";
    "Asia/Jakarta";
    "Asia/Singapore";
    "Asia/Shanghai";
    "Asia/Hong_Kong";
    "Asia/Taipei";
    "Asia/Kuala_Lumpur";
    "Asia/Manila";
    "Asia/Makassar";
    "Asia/Irkutsk";
    "Asia/Seoul";
    "Asia/Tokyo";
    "Asia/Yakutsk";
    "Asia/Vladivostok";
    "Asia/Magadan";
    "Asia/Kamchatka";
    "Asia/Sakhalin";
    (* Australia & Pacific *)
    "Australia/Perth";
    "Australia/Adelaide";
    "Australia/Darwin";
    "Australia/Brisbane";
    "Australia/Sydney";
    "Australia/Melbourne";
    "Australia/Hobart";
    "Australia/Lord_Howe";
    "Pacific/Auckland";
    "Pacific/Chatham";
    "Pacific/Fiji";
    "Pacific/Guam";
    "Pacific/Noumea";
    "Pacific/Port_Moresby";
    "Pacific/Tongatapu"
  ]%string.

Definition ALL_TIMEZONES : list jsstring :=
  Eval vm_compute in map lit ALL_TIMEZONE_NAMES.

(** The keys [isFalsePositive] rejects in the table's own spelling. *)
Definition shortMixedCaseKeys : list jsstring :=
  [lit "India"; lit "Japan"; lit "Korea"; lit "China"].

(** [detectTimezone(text)], on a fresh regex, returns [expected]
    ([None]: [null]) and leaves [lastIndex] at [lastIndex']. *)
Definition detectsAs (text : jsstring) (expected : option jsstring)
  (lastIndex' : nat) : bool :=
  match detectTimezone O text, expected with
  | Some (JStr z, l), Some z' => streq z z' && (l =? lastIndex')%nat
  | Some (JNull, l), None => (l =? lastIndex')%nat
  | _, _ => false
  end.

(** What the table promises of one entry: in capitals the alias is
    detected; in its own spelling it is detected unless it is one of
    the short mixed-case keys, which give [null]. *)
Definition entryDetected (e : jsstring * jsstring) : bool :=
  let '(key, zone) := e in
  detectsAs (toUpperCase key) (Some zone) (len key)
  && Bool.eqb (isFalsePositive key) (existsb (streq key) shortMixedCaseKeys)
  && (if isFalsePositive key then detectsAs key None O
      else detectsAs key (Some zone) (len key)).

(** *** [src/content/dialog.js] *)

(** [s.replace(/c/g, repl)] for a one-character pattern. *)
Fixpoint replaceChar (c : Z) (repl : jsstring) (s : jsstring) : jsstring :=
  match s with
  | [] => []
  | x :: r => if x =? c then repl ++ replaceChar c repl r
              else x :: replaceChar c repl r
  end.

Definition escapeHtml (str : jsstring) : jsstring :=
  replaceChar 34 (lit "&quot;")
    (replaceChar 62 (lit "&gt;")
       (replaceChar 60 (lit "&lt;")
          (replaceChar 38 (lit "&amp;") str))).

(** What one character becomes under [escapeHtml]. *)
Definition escapeChar (c : Z) : jsstring :=
  if c =? 38 then lit "&amp;"
  else if c =? 60 then lit "&lt;"
  else if c =? 62 then lit "&gt;"
  else if c =? 34 then lit "&quot;"
  else [c].

(** An [<option>] element as [buildTimezoneOptions] sets it up. *)
Record OptionElement : Type := {
  o_value : jsstring;
  o_textContent : jsstring;
  o_selected : bool
}.

Definition buildTimezoneOptions (selectedTZ : jsstring) : list OptionElement :=
  map (fun tz =>
         {| o_value := tz;
            o_textContent := replaceChar 95 (lit " ") tz;
            o_selected := streq tz selectedTZ |})
    ALL_TIMEZONES.

(** *** Further sample values *)

(** 29 February 2024, 9:30 with the PM flag. *)
Definition nineThirty : Components :=
  {| c_year := Some 2024; c_month := Some 2; c_day := Some 29;
     c_hour := Some 9; c_minute := Some 30; c_second := Some 0;
     c_meridiem := Some 1 |}.

(** One parse result with a start and an end. *)
Definition rangeFound : list ParsedResult :=
  [ {| r_start := sixPM; r_end := Some sixPM |} ].

(* ================================================================== *)
(** * Properties *)

(* ================================================================== *)
(** ** Strings: equality and decimal numerals *)

Lemma streq_eq (a b : jsstring) : streq a b = true <-> a = b.
Proof.
  revert b; induction a as [|x a IH]; intros [|y b]; simpl; split;
    try congruence; try reflexivity.
  - intros H. apply andb_true_iff in H as [Hx Hs].
    apply Z.eqb_eq in Hx. apply IH in Hs. congruence.
  - intros H. injection H as -> ->. rewrite Z.eqb_refl. simpl.
    apply IH. reflexivity.
Qed.

Lemma streq_refl (a : jsstring) : streq a a = true.
Proof. apply streq_eq. reflexivity. Qed.

Lemma forall_zrange (f : Z -> bool) (lo n : Z) :
  forallb f (zrange lo n) = true ->
  forall z, lo <= z < lo + n -> f z = true.
Proof.
  intros H z Hz. rewrite forallb_forall in H. apply H.
  apply in_map_iff. exists (Z.to_nat (z - lo)). split.
  - lia.
  - apply in_seq. lia.
Qed.

Lemma pad2_digits (n : Z) :
  0 <= n <= 99 -> pad2 n = [48 + n / 10; 48 + n mod 10].
Proof.
  intros H. apply streq_eq.
  apply (forall_zrange
           (fun n => streq (pad2 n) [48 + n / 10; 48 + n mod 10]) 0 100).
  - vm_compute. reflexivity.
  - lia.
Qed.

Lemma parseInt_pad2 (n : Z) : 0 <= n <= 99 -> parseInt (pad2 n) = Some n.
Proof.
  intros H.
  pose proof (forall_zrange
                (fun n => match parseInt (pad2 n) with
                          | Some m => m =? n
                          | None => false
                          end) 0 100 ltac:(vm_compute; reflexivity) n
                ltac:(lia)) as Hc.
  cbv beta in Hc.
  destruct (parseInt (pad2 n)); [apply Z.eqb_eq in Hc; congruence | discriminate].
Qed.

Lemma numberToString_year (y : Z) :
  1000 <= y <= 9999 ->
  numberToString y
  = [48 + y / 1000; 48 + (y / 100) mod 10; 48 + (y / 10) mod 10; 48 + y mod 10].
Proof.
  intros H. apply streq_eq.
  apply (forall_zrange
           (fun y => streq (numberToString y)
                       [48 + y / 1000; 48 + (y / 100) mod 10;
                        48 + (y / 10) mod 10; 48 + y mod 10]) 1000 9000).
  - vm_compute. reflexivity.
  - lia.
Qed.

Lemma parseInt_numberToString (y : Z) :
  1 <= y <= 10999 -> parseInt (numberToString y) = Some y.
Proof.
  intros H.
  pose proof (forall_zrange
                (fun n => match parseInt (numberToString n) with
                          | Some m => m =? n
                          | None => false
                          end) 1 10999 ltac:(vm_compute; reflexivity) y
                ltac:(lia)) as Hc.
  cbv beta in Hc.
  destruct (parseInt (numberToString y));
    [apply Z.eqb_eq in Hc; congruence | discriminate].
Qed.

(* ================================================================== *)
(** ** The calendar *)

Lemma YearFromDay_spec (d : Z) :
  DayFromYear (YearFromDay d) <= d < DayFromYear (YearFromDay d + 1).
Proof.
  unfold YearFromDay.
  destruct (Z.leb_spec (DayFromYear (1970 + d * 400 / 146097 + 1)) d) as [H1|H1].
  - split; [exact H1|]. revert H1. unfold DayFromYear.
    Z.div_mod_to_equations. lia.
  - destruct (Z.leb_spec (DayFromYear (1970 + d * 400 / 146097)) d) as [H0|H0].
    + split; assumption.
    + replace (1970 + d * 400 / 146097 - 1 + 1) with (1970 + d * 400 / 146097) by lia.
      split; [|exact H0]. revert H0 H1. unfold DayFromYear.
      Z.div_mod_to_equations. lia.
Qed.

Lemma DayFromYear_succ (y : Z) :
  DayFromYear (y + 1) = DayFromYear y + DaysInYear y.
Proof.
  unfold DayFromYear, DaysInYear, isLeapYear.
  replace (y + 1 - 1970) with (y - 1969) by lia.
  replace (y + 1 - 1969) with (y - 1968) by lia.
  replace (y + 1 - 1901) with (y - 1900) by lia.
  replace (y + 1 - 1601) with (y - 1600) by lia.
  assert (E4 : (y - 1968) / 4 = (y - 1969) / 4 + (if y mod 4 =? 0 then 1 else 0)).
  { destruct (Z.eqb_spec (y mod 4) 0); Z.div_mod_to_equations; lia. }
  assert (E100 : (y - 1900) / 100
                 = (y - 1901) / 100 + (if y mod 100 =? 0 then 1 else 0)).
  { destruct (Z.eqb_spec (y mod 100) 0); Z.div_mod_to_equations; lia. }
  assert (E400 : (y - 1600) / 400
                 = (y - 1601) / 400 + (if y mod 400 =? 0 then 1 else 0)).
  { destruct (Z.eqb_spec (y mod 400) 0); Z.div_mod_to_equations; lia. }
  rewrite E4, E100, E400.
  assert (M1 : y mod 400 = 0 -> y mod 100 = 0).
  { rewrite (Z.mod_divide y 400), (Z.mod_divide y 100) by lia.
    intros [k ->]. exists (4 * k). lia. }
  assert (M2 : y mod 100 = 0 -> y mod 4 = 0).
  { rewrite (Z.mod_divide y 100), (Z.mod_divide y 4) by lia.
    intros [k ->]. exists (25 * k). lia. }
  destruct (Z.eqb_spec (y mod 4) 0), (Z.eqb_spec (y mod 100) 0),
    (Z.eqb_spec (y mod 400) 0); cbn [andb orb negb]; lia.
Qed.

Lemma DayWithinYear_range (t : Z) :
  0 <= DayWithinYear t < DaysInYear (YearFromTime t).
Proof.
  unfold DayWithinYear, YearFromTime.
  pose proof (YearFromDay_spec (Day t)) as H.
  rewrite DayFromYear_succ in H. lia.
Qed.

Lemma monthOfYearDay_spec (leap : bool) (d : Z) :
  0 <= d < (if leap then 366 else 365) ->
  let m := monthOfYearDay leap d in
  0 <= m <= 11 /\ 1 <= d - daysBeforeMonth leap m + 1 <= 31.
Proof.
  intros H. unfold monthOfYearDay.
  repeat match goal with
         | |- context [if ?a <? ?b then _ else _] =>
             destruct (Z.ltb_spec a b)
         end;
    destruct leap; cbn [daysBeforeMonth] in *; lia.
Qed.

Lemma MonthFromTime_range (t : Z) : 0 <= MonthFromTime t <= 11.
Proof.
  unfold MonthFromTime.
  apply monthOfYearDay_spec. apply DayWithinYear_range.
Qed.

Lemma DateFromTime_range (t : Z) : 1 <= DateFromTime t <= 31.
Proof.
  unfold DateFromTime, MonthFromTime.
  apply monthOfYearDay_spec. apply DayWithinYear_range.
Qed.

Lemma HourFromTime_range (t : Z) : 0 <= HourFromTime t <= 23.
Proof. unfold HourFromTime. pose proof (Z.mod_pos_bound (t / msPerHour) 24). lia. Qed.

Lemma MinFromTime_range (t : Z) : 0 <= MinFromTime t <= 59.
Proof. unfold MinFromTime. pose proof (Z.mod_pos_bound (t / msPerMinute) 60). lia. Qed.

Lemma SecFromTime_range (t : Z) : 0 <= SecFromTime t <= 59.
Proof. unfold SecFromTime. pose proof (Z.mod_pos_bound (t / msPerSecond) 60). lia. Qed.

(** The day number of a time value's own year, month and date is its
    day. *)
Lemma MakeDay_fields (t : Z) :
  MakeDay (YearFromTime t) (MonthFromTime t) (DateFromTime t) = Day t.
Proof.
  pose proof (MonthFromTime_range t) as Hm.
  unfold MakeDay.
  rewrite (Z.div_small (MonthFromTime t) 12), (Z.mod_small (MonthFromTime t) 12) by lia.
  rewrite Z.add_0_r. unfold DateFromTime, DayWithinYear. lia.
Qed.

(** The time within the day made of a time value's hour, minute and
    second is its own, short of the milliseconds. *)
Lemma MakeTime_fields (t : Z) :
  MakeTime (HourFromTime t) (MinFromTime t) (SecFromTime t) 0
  = TimeWithinDay t - msFromTime t.
Proof.
  unfold MakeTime, HourFromTime, MinFromTime, SecFromTime, TimeWithinDay,
    msFromTime, msPerHour, msPerMinute, msPerSecond, msPerDay.
  Z.div_mod_to_equations. lia.
Qed.

Lemma MakeDate_fields (t : Z) :
  MakeDate (MakeDay (YearFromTime t) (MonthFromTime t) (DateFromTime t))
    (MakeTime (HourFromTime t) (MinFromTime t) (SecFromTime t) 0)
  = t - msFromTime t.
Proof.
  rewrite MakeDay_fields, MakeTime_fields.
  unfold MakeDate, Day, TimeWithinDay, msFromTime, msPerDay, msPerSecond.
  Z.div_mod_to_equations. lia.
Qed.

Lemma civilFields_whole_seconds (t : Z) :
  civilFields (t - msFromTime t) = civilFields t.
Proof.
  assert (D : Day (t - msFromTime t) = Day t).
  { unfold Day, msFromTime, msPerDay, msPerSecond. Z.div_mod_to_equations. lia. }
  unfold civilFields, MonthFromTime, DateFromTime, MonthFromTime, DayWithinYear,
    YearFromTime.
  rewrite D.
  assert (H : HourFromTime (t - msFromTime t) = HourFromTime t).
  { unfold HourFromTime, msFromTime, msPerHour, msPerSecond.
    Z.div_mod_to_equations. lia. }
  assert (M : MinFromTime (t - msFromTime t) = MinFromTime t).
  { unfold MinFromTime, msFromTime, msPerMinute, msPerSecond.
    Z.div_mod_to_equations. lia. }
  assert (S : SecFromTime (t - msFromTime t) = SecFromTime t).
  { unfold SecFromTime, msFromTime, msPerSecond.
    Z.div_mod_to_equations. lia. }
  rewrite H, M, S. reflexivity.
Qed.

(** Years 1000 to 9999 lie well inside the range of valid time values. *)
Lemma YearFromTime_bounds (t : Z) (lo hi : Z) :
  lo <= YearFromTime t <= hi ->
  DayFromYear lo * msPerDay <= t < DayFromYear (hi + 1) * msPerDay.
Proof.
  intros H. unfold YearFromTime in H.
  pose proof (YearFromDay_spec (Day t)) as S.
  assert (Mono : forall a b, a <= b -> DayFromYear a <= DayFromYear b).
  { intros a b Hab. unfold DayFromYear. Z.div_mod_to_equations. lia. }
  pose proof (Mono lo (YearFromDay (Day t)) ltac:(lia)).
  pose proof (Mono (YearFromDay (Day t) + 1) (hi + 1) ltac:(lia)).
  unfold Day, msPerDay in *. Z.div_mod_to_equations. lia.
Qed.

Lemma YearFromTime_within (t lo hi : Z) :
  DayFromYear lo * msPerDay <= t < DayFromYear (hi + 1) * msPerDay ->
  lo <= YearFromTime t <= hi.
Proof.
  intros H. unfold YearFromTime.
  pose proof (YearFromDay_spec (Day t)) as S.
  assert (Mono : forall a b, a <= b -> DayFromYear a <= DayFromYear b).
  { intros a b Hab. unfold DayFromYear. Z.div_mod_to_equations. lia. }
  assert (D : DayFromYear lo <= Day t < DayFromYear (hi + 1)).
  { unfold Day, msPerDay in *. Z.div_mod_to_equations. lia. }
  split.
  - destruct (Z.le_gt_cases lo (YearFromDay (Day t))) as [L|L]; [exact L|].
    pose proof (Mono (YearFromDay (Day t) + 1) lo ltac:(lia)). lia.
  - destruct (Z.le_gt_cases (YearFromDay (Day t)) hi) as [L|L]; [exact L|].
    pose proof (Mono (hi + 1) (YearFromDay (Day t)) ltac:(lia)). lia.
Qed.

Lemma twoDigits_digits (a b : Z) :
  0 <= a <= 9 -> 0 <= b <= 9 -> twoDigits (48 + a) (48 + b) = Some (a * 10 + b).
Proof.
  intros Ha Hb. unfold twoDigits, isDigit.
  replace (48 <=? 48 + a) with true by (symmetry; apply Z.leb_le; lia).
  replace (48 + a <=? 57) with true by (symmetry; apply Z.leb_le; lia).
  replace (48 <=? 48 + b) with true by (symmetry; apply Z.leb_le; lia).
  replace (48 + b <=? 57) with true by (symmetry; apply Z.leb_le; lia).
  cbn [andb]. f_equal. lia.
Qed.

(** The string [wallClockToUTC] builds from in-range fields parses to
    the time value of those fields read as UTC. *)
Lemma DateParse_isoStr (y mo d h mi s : Z) :
  1000 <= y <= 9999 -> 1 <= mo <= 12 -> 1 <= d <= 31 ->
  0 <= h <= 23 -> 0 <= mi <= 59 -> 0 <= s <= 59 ->
  DateParse (numberToString y ++ lit "-" ++ pad2 mo ++ lit "-" ++ pad2 d
             ++ lit "T" ++ pad2 h ++ lit ":" ++ pad2 mi ++ lit ":" ++ pad2 s
             ++ lit "Z")
  = newDateOfValue (Some (MakeDate (MakeDay y (mo - 1) d) (MakeTime h mi s 0))).
Proof.
  intros Hy Hmo Hd Hh Hmi Hs.
  rewrite numberToString_year, !pad2_digits by lia.
  change (lit "-") with [45]. change (lit "T") with [84].
  change (lit ":") with [58]. change (lit "Z") with [90].
  cbn [app]. unfold DateParse.
  rewrite !twoDigits_digits by (Z.div_mod_to_equations; lia).
  replace (y / 1000 * 10 + y / 100 mod 10) with (y / 100)
    by (Z.div_mod_to_equations; lia).
  replace (y / 100 * 100 + (y / 10 mod 10 * 10 + y mod 10)) with y
    by (Z.div_mod_to_equations; lia).
  replace (mo / 10 * 10 + mo mod 10) with mo by (Z.div_mod_to_equations; lia).
  replace (d / 10 * 10 + d mod 10) with d by (Z.div_mod_to_equations; lia).
  replace (h / 10 * 10 + h mod 10) with h by (Z.div_mod_to_equations; lia).
  replace (mi / 10 * 10 + mi mod 10) with mi by (Z.div_mod_to_equations; lia).
  replace (s / 10 * 10 + s mod 10) with s by (Z.div_mod_to_equations; lia).
  replace (1 <=? mo) with true by (symmetry; apply Z.leb_le; lia).
  replace (mo <=? 12) with true by (symmetry; apply Z.leb_le; lia).
  replace (1 <=? d) with true by (symmetry; apply Z.leb_le; lia).
  replace (d <=? 31) with true by (symmetry; apply Z.leb_le; lia).
  replace (mi <=? 59) with true by (symmetry; apply Z.leb_le; lia).
  replace (s <=? 59) with true by (symmetry; apply Z.leb_le; lia).
  replace (h <=? 23) with true by (symmetry; apply Z.leb_le; lia).
  reflexivity.
Qed.

Lemma TimeClip_ok (t : Z) :
  Z.abs t <= 8640000000000000 -> TimeClip t = Some t.
Proof.
  intros H. unfold TimeClip.
  replace (Z.abs t <=? 8640000000000000) with true
    by (symmetry; apply Z.leb_le; exact H).
  reflexivity.
Qed.

Lemma getPart_numeric (mo d y h mi s : jsstring) :
  let parts :=
    [ mkPart "month" mo; mkPart "literal" (lit "/"); mkPart "day" d;
      mkPart "literal" (lit "/"); mkPart "year" y; mkPart "literal" (lit ", ");
      mkPart "hour" h; mkPart "literal" (lit ":"); mkPart "minute" mi;
      mkPart "literal" (lit ":"); mkPart "second" s ] in
  getPart parts "year" = parseInt y /\ getPart parts "month" = parseInt mo
  /\ getPart parts "day" = parseInt d /\ getPart parts "hour" = parseInt h
  /\ getPart parts "minute" = parseInt mi /\ getPart parts "second" = parseInt s.
Proof. repeat split; reflexivity. Qed.

(** Years 999 to 10000 in day numbers. *)
Lemma DayFromYear_999 : DayFromYear 999 = -354650.
Proof. reflexivity. Qed.
Lemma DayFromYear_1000 : DayFromYear 1000 = -354285.
Proof. reflexivity. Qed.
Lemma DayFromYear_10000 : DayFromYear 10000 = 2932897.
Proof. reflexivity. Qed.
Lemma DayFromYear_10001 : DayFromYear 10001 = 2933263.
Proof. reflexivity. Qed.

(** At an instant of whole seconds in years 1000-9999, in a zone whose
    offset there is within a day, [getUtcOffset] returns the offset the
    rules provider reports, and its quotient by 60000 is exact. *)
Lemma getUtcOffset_estimate (host : Host) (tz : jsstring) (rules : ZoneRules)
  (e : Z) :
  timeZones host tz = Some rules ->
  msFromTime e = 0 ->
  1000 <= YearFromTime e <= 9999 ->
  -1440 <= offsetAt rules e <= 1440 ->
  getUtcOffset host (TimeValue e) tz = Ok (Some (offsetAt rules e)).
Proof.
  intros Hz Hms Hy Hoff.
  unfold getUtcOffset, newDateTimeFormat. rewrite Hz. cbn [bind].
  unfold formatToPartsNumeric. cbn [bind].
  set (zl := zoneLocalTime rules e).
  pose proof (getPart_numeric
                (pad2 (MonthFromTime zl + 1)) (pad2 (DateFromTime zl))
                (numberToString (eraYear (YearFromTime zl)))
                (pad2 (if midnightAs24 host && (HourFromTime zl =? 0)
                       then 24 else HourFromTime zl))
                (pad2 (MinFromTime zl)) (pad2 (SecFromTime zl))) as G.
  cbv zeta in G. destruct G as (Gy & Gmo & Gd & Gh & Gmi & Gs).
  rewrite Gy, Gmo, Gd, Gh, Gmi, Gs. clear Gy Gmo Gd Gh Gmi Gs.
  pose proof (YearFromTime_bounds e 1000 9999 Hy) as He.
  change (9999 + 1) with 10000 in He.
  rewrite DayFromYear_1000, DayFromYear_10000 in He.
  assert (Hzl : zl = e + offsetAt rules e * 60000) by reflexivity.
  assert (Hzy : 999 <= YearFromTime zl <= 10000).
  { apply YearFromTime_within. change (10000 + 1) with 10001.
    rewrite DayFromYear_999, DayFromYear_10001. unfold msPerDay in *. lia. }
  assert (Hzms : msFromTime zl = 0).
  { unfold msFromTime, msPerSecond in *. rewrite Hzl.
    Z.div_mod_to_equations. lia. }
  pose proof (MonthFromTime_range zl) as Hmo.
  pose proof (DateFromTime_range zl) as Hd.
  pose proof (HourFromTime_range zl) as Hh.
  pose proof (MinFromTime_range zl) as Hmi.
  pose proof (SecFromTime_range zl) as Hs.
  assert (Era : eraYear (YearFromTime zl) = YearFromTime zl).
  { unfold eraYear. destruct (Z.leb_spec (YearFromTime zl) 0); lia. }
  rewrite Era.
  rewrite parseInt_numberToString by lia.
  rewrite (parseInt_pad2 (MonthFromTime zl + 1)), (parseInt_pad2 (DateFromTime zl)),
    (parseInt_pad2 (MinFromTime zl)), (parseInt_pad2 (SecFromTime zl)) by lia.
  assert (Hhour :
    (if strictEq (parseInt (pad2 (if midnightAs24 host && (HourFromTime zl =? 0)
                                  then 24 else HourFromTime zl))) 24
     then Some 0
     else parseInt (pad2 (if midnightAs24 host && (HourFromTime zl =? 0)
                          then 24 else HourFromTime zl)))
    = Some (HourFromTime zl)).
  { destruct (midnightAs24 host && (HourFromTime zl =? 0)) eqn:Q.
    - apply andb_true_iff in Q as [_ Q]. apply Z.eqb_eq in Q. rewrite Q.
      reflexivity.
    - rewrite parseInt_pad2 by lia. cbn [strictEq].
      destruct (Z.eqb_spec (HourFromTime zl) 24); [lia | reflexivity]. }
  rewrite Hhour.
  replace (MonthFromTime zl + 1 - 1) with (MonthFromTime zl) by lia.
  unfold DateUTC.
  assert (Full : fullYear (YearFromTime zl) = YearFromTime zl).
  { unfold fullYear. destruct (Z.leb_spec (YearFromTime zl) 99).
    - lia.
    - rewrite andb_false_r. reflexivity. }
  rewrite Full, MakeDate_fields, Hzms, Z.sub_0_r.
  rewrite TimeClip_ok by (unfold msPerDay in *; lia).
  cbn [nmap2 getTime]. do 2 f_equal. rewrite Hzl.
  replace (e + offsetAt rules e * 60000 - e) with (offsetAt rules e * 60000) by lia.
  apply Z.div_mul. lia.
Qed.

(** *** [wallClockToUTC] *)

(** What [wallClockToUTC] computes for a valid date whose local year has
    four digits: the wall-clock fields read as UTC, moved back by the
    offset the zone observes at that first estimate. *)
Lemma wallClockToUTC_value (host : Host) (tz : jsstring) (rules : ZoneRules)
  (t : Z) :
  let wall := LocalTime host t in
  let estimate := wall - msFromTime wall in
  let offset := offsetAt rules estimate in
  timeZones host tz = Some rules ->
  1000 <= YearFromTime wall <= 9999 ->
  -1440 <= offset <= 1440 ->
  wallClockToUTC host (TimeValue t) tz
  = Ok (TimeValue (estimate - offset * 60000)).
Proof.
  intros wall estimate offset Hz Hy Hoff.
  pose proof (MonthFromTime_range wall) as Hmo.
  pose proof (DateFromTime_range wall) as Hd.
  pose proof (HourFromTime_range wall) as Hh.
  pose proof (MinFromTime_range wall) as Hmi.
  pose proof (SecFromTime_range wall) as Hs.
  pose proof (YearFromTime_bounds wall 1000 9999 Hy) as Hw.
  change (9999 + 1) with 10000 in Hw.
  rewrite DayFromYear_1000, DayFromYear_10000 in Hw.
  assert (Hms : 0 <= msFromTime wall < 1000).
  { unfold msFromTime, msPerSecond. apply Z.mod_pos_bound. lia. }
  unfold wallClockToUTC, getFullYear, getMonth, getDate, getHours, getMinutes,
    getSeconds, localField.
  fold wall. cbn [nmap2 String_].
  change (padStart 2 48 (numberToString ?x)) with (pad2 x).
  match goal with
  | |- context [DateParse ?s] =>
      assert (Est : DateParse s = TimeValue estimate)
  end.
  { rewrite DateParse_isoStr by lia.
    replace (MonthFromTime wall + 1 - 1) with (MonthFromTime wall) by lia.
    rewrite MakeDate_fields. fold estimate. unfold newDateOfValue.
    rewrite TimeClip_ok by (unfold msPerDay in *; lia). reflexivity. }
  rewrite Est.
  assert (Hey : YearFromTime estimate = YearFromTime wall).
  { pose proof (civilFields_whole_seconds wall) as C. unfold civilFields in C.
    fold estimate in C. congruence. }
  rewrite (getUtcOffset_estimate host tz rules estimate Hz).
  - cbn [bind getTime nmap2]. unfold newDateOfValue.
    fold offset.
    replace (offset * 60 * 1000) with (offset * 60000) by lia.
    cbn [getTime nmap2].
    rewrite TimeClip_ok by (unfold msPerDay in *; lia).
    reflexivity.
  - unfold msFromTime, msPerSecond in *. unfold estimate.
    Z.div_mod_to_equations. lia.
  - lia.
  - exact Hoff.
Qed.

(** Claim C1, as amended.  Resolving a wall-clock date to an instant in
    a known zone and rendering that instant back in the same zone
    reproduces the date's year, month, day, hour, minute and second,
    provided the date's local year has four digits and the zone observes
    one and the same offset, of at most a day, at the first-pass
    estimate and at the resulting instant. *)
Theorem wallClockToUTC_roundtrip (host : Host) (tz : jsstring)
  (rules : ZoneRules) (t : Z) :
  let wall := LocalTime host t in
  let estimate := wall - msFromTime wall in
  let offset := offsetAt rules estimate in
  let instant := TimeValue (estimate - offset * 60000) in
  timeZones host tz = Some rules ->
  1000 <= YearFromTime wall <= 9999 ->
  -1440 <= offset <= 1440 ->
  offsetAt rules (estimate - offset * 60000) = offset ->
  wallClockToUTC host (TimeValue t) tz = Ok instant
  /\ wallClockFields host (TimeValue t) = Some (civilFields wall)
  /\ zoneCivilFields host instant tz = Ok (civilFields wall).
Proof.
  intros wall estimate offset instant Hz Hy Hoff Hsame.
  split; [|split].
  - apply wallClockToUTC_value; assumption.
  - reflexivity.
  - unfold zoneCivilFields, newDateTimeFormat, instant. rewrite Hz.
    cbn [bind]. unfold zoneLocalTime. rewrite Hsame.
    unfold msPerMinute.
    replace (estimate - offset * 60000 + offset * 60000) with estimate by lia.
    unfold estimate. rewrite civilFields_whole_seconds. reflexivity.
Qed.

(** The round trip at 09:00 on 2025-02-18 in America/New_York. *)
Lemma wallClockToUTC_roundtrip_witness :
  wallClockToUTC utcHost (makeDate utcHost 2025 2 18 9 0) (lit "America/New_York")
  = Ok (TimeValue 1739887200000)
  /\ wallClockFields utcHost (makeDate utcHost 2025 2 18 9 0)
     = Some (2025, 2, 18, 9, 0, 0)
  /\ zoneCivilFields utcHost (TimeValue 1739887200000) (lit "America/New_York")
     = Ok (2025, 2, 18, 9, 0, 0).
Proof.
  pose proof (wallClockToUTC_roundtrip utcHost (lit "America/New_York")
                newYork2025 1739869200000) as H.
  cbv zeta in H.
  specialize (H eq_refl).
  specialize (H ltac:(vm_compute; split; discriminate)).
  specialize (H ltac:(vm_compute; split; discriminate)).
  specialize (H ltac:(vm_compute; reflexivity)).
  vm_cast_no_check H.
Defined.

(** Claim C1 as stated fails: 03:30 on 2025-03-09 in America/New_York
    resolves to 08:30Z, which that zone renders as 04:30.  The estimate
    03:30Z lies before the change to daylight time at 07:00Z, so the
    offset found there is the winter one. *)
Lemma wallClockToUTC_roundtrip_fails_near_dst :
  ~ (forall (host : Host) (d instant : Date) (tz : jsstring)
            (fields : Z * Z * Z * Z * Z * Z),
        timeZones host tz <> None ->
        wallClockFields host d = Some fields ->
        wallClockToUTC host d tz = Ok instant ->
        zoneCivilFields host instant tz = Ok fields).
Proof.
  intros H.
  assert (A : zoneCivilFields utcHost (TimeValue 1741509000000)
                (lit "America/New_York") = Ok (2025, 3, 9, 3, 30, 0)).
  { apply (H utcHost (makeDate utcHost 2025 3 9 3 30)).
    - change (Some newYork2025 <> None). discriminate.
    - vm_compute. reflexivity.
    - vm_compute. reflexivity. }
  vm_compute in A. discriminate A.
Qed.

(** *** [convertParsed] *)

(** A single moment converts to the target zone's rendering of the
    instant [wallClockToUTC] finds. *)
Lemma convertParsed_single (host : Host) (from to : jsstring)
  (rf rt : ZoneRules) (start : Date) (y mo d h mi s : Z) :
  timeZones host from = Some rf ->
  timeZones host to = Some rt ->
  wallClockFields host start = Some (y, mo, d, h, mi, s) ->
  1000 <= y <= 9999 ->
  let e := MakeDate (MakeDay y (mo - 1) d) (MakeTime h mi s 0) in
  -1440 <= offsetAt rf e <= 1440 ->
  exists conv,
    convertParsed host {| p_start := start; p_end := None; hasRange := false |}
      from to = Ok conv
    /\ startUTC conv = TimeValue (e - offsetAt rf e * 60000)
    /\ Ok (displayTime conv)
       = formatTimeShort rt (TimeValue (e - offsetAt rf e * 60000)).
Proof.
  intros Hf Ht Hw Hy e Hoff.
  destruct start as [|t]; [discriminate Hw|].
  cbn [wallClockFields] in Hw. injection Hw as Ey Emo Ed Eh Emi Es.
  assert (Ee : e = LocalTime host t - msFromTime (LocalTime host t)).
  { unfold e. rewrite <- MakeDate_fields, Ey, Ed, Eh, Emi, Es.
    replace (MonthFromTime (LocalTime host t)) with (mo - 1) by lia.
    reflexivity. }
  pose proof (wallClockToUTC_value host from rf t) as V. cbv zeta in V.
  rewrite <- Ee in V. specialize (V Hf ltac:(lia) Hoff).
  unfold convertParsed. cbn [p_start p_end]. rewrite V. cbn [bind].
  unfold newDateTimeFormat. rewrite Ht. cbn [bind].
  unfold formatDateLong, formatTimeShort, formatToPartsZoneName. cbn [bind].
  eexists. split; [reflexivity|]. split; reflexivity.
Qed.

(** One fixture: both zones agree with their 2025 models at the two
    instants involved, and the rest is computation. *)
Lemma fixture_displays (host : Host) (from to : string) (mf mt : ZoneRules)
  (y mo d h mi : Z) (time : string) :
  observesIn2025 host from mf ->
  observesIn2025 host to mt ->
  readsBack host y mo d h mi ->
  let e := MakeDate (MakeDay y (mo - 1) d) (MakeTime h mi 0 0) in
  let u := e - offsetAt mf e * 60000 in
  (1000 <=? y) && (y <=? 9999) = true ->
  (1735689600000 <=? e) && (e <? 1767225600000) = true ->
  (1735689600000 <=? u) && (u <? 1767225600000) = true ->
  (-1440 <=? offsetAt mf e) && (offsetAt mf e <=? 1440) = true ->
  formatTimeShort mt (TimeValue u) = Ok (lit time) ->
  displays host (fixture host y mo d h mi) from to time.
Proof.
  intros (rf & Hf & Of) (rt & Ht & Ot) Hw e u Hy He Hu Hoff Hfmt.
  apply andb_true_iff in Hy as [Hy1 Hy2], He as [He1 He2], Hu as [Hu1 Hu2],
    Hoff as [Ho1 Ho2].
  apply Z.leb_le in Hy1, Hy2, He1, Hu1, Ho1, Ho2. apply Z.ltb_lt in He2, Hu2.
  assert (Efrom : offsetAt rf e = offsetAt mf e) by (apply Of; split; assumption).
  destruct (convertParsed_single host (lit from) (lit to) rf rt
              (makeDate host y mo d h mi) y mo d h mi 0 Hf Ht Hw
              (conj Hy1 Hy2)) as (conv & Hc & _ & Hd).
  { fold e. rewrite Efrom. split; assumption. }
  fold e in Hd. rewrite Efrom in Hd. fold u in Hd.
  exists conv. split; [exact Hc|].
  assert (Eto : formatTimeShort rt (TimeValue u) = formatTimeShort mt (TimeValue u)).
  { unfold formatTimeShort, zoneLocalTime. rewrite (Ot u (conj Hu1 Hu2)).
    reflexivity. }
  rewrite Eto, Hfmt in Hd. congruence.
Qed.

(** Claim C2.  On a host whose zone database gives the four zones their
    2025 offsets and whose own zone has the four wall-clock times,
    [convertParsed] displays 6:00 AM for 2025-02-18 09:00 New York to
    Los Angeles, 3:00 PM for 2025-02-19 18:00 New York to Los Angeles,
    7:00 AM for 2025-02-19 12:00 UTC to New York, and 5:00 PM for
    2025-02-19 09:00 Los Angeles to GMT. *)
Theorem convertParsed_fixtures (host : Host) :
  observesIn2025 host "America/New_York" newYork2025 ->
  observesIn2025 host "America/Los_Angeles" losAngeles2025 ->
  observesIn2025 host "UTC" utcRules ->
  observesIn2025 host "GMT" gmtRules ->
  readsBack host 2025 2 18 9 0 ->
  readsBack host 2025 2 19 18 0 ->
  readsBack host 2025 2 19 12 0 ->
  readsBack host 2025 2 19 9 0 ->
  displays host (fixture host 2025 2 18 9 0)
    "America/New_York" "America/Los_Angeles" "6:00 AM"
  /\ displays host (fixture host 2025 2 19 18 0)
       "America/New_York" "America/Los_Angeles" "3:00 PM"
  /\ displays host (fixture host 2025 2 19 12 0)
       "UTC" "America/New_York" "7:00 AM"
  /\ displays host (fixture host 2025 2 19 9 0)
       "America/Los_Angeles" "GMT" "5:00 PM".
Proof.
  intros NY LA U G R1 R2 R3 R4.
  repeat split.
  - apply (fixture_displays host _ _ newYork2025 losAngeles2025); try assumption;
      vm_compute; reflexivity.
  - apply (fixture_displays host _ _ newYork2025 losAngeles2025); try assumption;
      vm_compute; reflexivity.
  - apply (fixture_displays host _ _ utcRules newYork2025); try assumption;
      vm_compute; reflexivity.
  - apply (fixture_displays host _ _ losAngeles2025 gmtRules); try assumption;
      vm_compute; reflexivity.
Qed.

Lemma utcHost_observes (tz : string) (model : ZoneRules) :
  timeZones utcHost (lit tz) = Some model -> observesIn2025 utcHost tz model.
Proof. intros H. exists model. split; [exact H | reflexivity]. Qed.

(** The fixtures on a host in the UTC zone. *)
Lemma convertParsed_fixtures_witness :
  displays utcHost (fixture utcHost 2025 2 18 9 0)
    "America/New_York" "America/Los_Angeles" "6:00 AM"
  /\ displays utcHost (fixture utcHost 2025 2 19 18 0)
       "America/New_York" "America/Los_Angeles" "3:00 PM"
  /\ displays utcHost (fixture utcHost 2025 2 19 12 0)
       "UTC" "America/New_York" "7:00 AM"
  /\ displays utcHost (fixture utcHost 2025 2 19 9 0)
       "America/Los_Angeles" "GMT" "5:00 PM".
Proof.
  apply (convertParsed_fixtures utcHost).
  - apply utcHost_observes. reflexivity.
  - apply utcHost_observes. reflexivity.
  - apply utcHost_observes. reflexivity.
  - apply utcHost_observes. reflexivity.
  - vm_compute. reflexivity.
  - vm_compute. reflexivity.
  - vm_compute. reflexivity.
  - vm_compute. reflexivity.
Defined.

(** *** Unknown zones *)

Lemma newDateTimeFormat_unknown (host : Host) (tz : jsstring) :
  timeZones host tz = None ->
  newDateTimeFormat host tz = Throw (invalidTimeZone tz).
Proof. intros H. unfold newDateTimeFormat. rewrite H. reflexivity. Qed.

Lemma wallClockToUTC_unknown (host : Host) (d : Date) (tz : jsstring) :
  timeZones host tz = None ->
  wallClockToUTC host d tz = Throw (invalidTimeZone tz).
Proof.
  intros H. unfold wallClockToUTC, getUtcOffset.
  rewrite (newDateTimeFormat_unknown host tz H). reflexivity.
Qed.

Lemma convertParsed_unknown (host : Host) (parsed : Parsed)
  (from to : jsstring) :
  timeZones host from = None \/ timeZones host to = None ->
  exists e, convertParsed host parsed from to = Throw e.
Proof.
  intros [H|H]; unfold convertParsed.
  - rewrite (wallClockToUTC_unknown host _ from H). eexists. reflexivity.
  - destruct (wallClockToUTC host (p_start parsed) from) as [u|e];
      [|eexists; reflexivity].
    cbn [bind].
    destruct (p_end parsed) as [d|].
    + destruct (wallClockToUTC host d from) as [v|e]; [|eexists; reflexivity].
      cbn [bind]. rewrite (newDateTimeFormat_unknown host to H).
      eexists. reflexivity.
    + cbn [bind]. rewrite (newDateTimeFormat_unknown host to H).
      eexists. reflexivity.
Qed.

(** Claim C3.  A zone identifier the rules provider does not know makes
    the offset lookup, the resolution, the rendering and the conversion
    (as source or as target zone) throw; no result is produced, and
    [updateResult] catches the error and shows "Conversion error" with
    its message. *)
Theorem unknown_zone_is_reported (host : Host) (tz : jsstring) :
  timeZones host tz = None ->
  (forall d, getUtcOffset host d tz = Throw (invalidTimeZone tz))
  /\ (forall d, wallClockToUTC host d tz = Throw (invalidTimeZone tz))
  /\ (forall instant, zoneCivilFields host instant tz = Throw (invalidTimeZone tz))
  /\ (forall parsed other view,
        (exists e,
            convertParsed host parsed tz other = Throw e
            /\ updateResult host parsed tz other view
               = {| resultDate := []; resultTime := lit "Conversion error";
                    resultTZ := message e; copyText := copyText view |})
        /\ (exists e,
               convertParsed host parsed other tz = Throw e
               /\ updateResult host parsed other tz view
                  = {| resultDate := []; resultTime := lit "Conversion error";
                       resultTZ := message e; copyText := copyText view |})).
Proof.
  intros H. repeat split.
  - intros d. unfold getUtcOffset.
    rewrite (newDateTimeFormat_unknown host tz H). reflexivity.
  - intros d. apply wallClockToUTC_unknown, H.
  - intros d. unfold zoneCivilFields.
    rewrite (newDateTimeFormat_unknown host tz H). reflexivity.
  - destruct (convertParsed_unknown host parsed tz other (or_introl H)) as [e E].
    exists e. split; [exact E|]. unfold updateResult. rewrite E. reflexivity.
  - destruct (convertParsed_unknown host parsed other tz (or_intror H)) as [e E].
    exists e. split; [exact E|]. unfold updateResult. rewrite E. reflexivity.
Qed.

(** An unknown source zone on the sample host. *)
Lemma unknown_zone_is_reported_witness :
  wallClockToUTC utcHost (makeDate utcHost 2025 2 18 9 0) (lit "Mars/Olympus")
  = Throw (invalidTimeZone (lit "Mars/Olympus")).
Proof.
  exact (proj1 (proj2 (unknown_zone_is_reported utcHost (lit "Mars/Olympus")
                         eq_refl))
           (makeDate utcHost 2025 2 18 9 0)).
Defined.

(* ================================================================== *)
(** ** The alias table and its sorted keys *)

Lemma insertByLength_In (k x : jsstring) (l : list jsstring) :
  In x (insertByLength k l) <-> x = k \/ In x l.
Proof.
  induction l as [|y l IH]; simpl.
  - intuition congruence.
  - destruct (len y <=? len k)%nat; simpl; rewrite ?IH; intuition congruence.
Qed.

Lemma sortByLengthDesc_In (x : jsstring) (l : list jsstring) :
  In x (sortByLengthDesc l) <-> In x l.
Proof.
  induction l as [|y l IH]; simpl.
  - reflexivity.
  - rewrite insertByLength_In, IH. intuition congruence.
Qed.

Lemma insertByLength_sorted (k : jsstring) (l : list jsstring) :
  StronglySorted noShorter l -> StronglySorted noShorter (insertByLength k l).
Proof.
  induction 1 as [|y l Hs IH Hy]; simpl.
  - constructor; constructor.
  - destruct (Nat.leb_spec (len y) (len k)) as [L|L].
    + constructor.
      * constructor; assumption.
      * constructor; [exact L|].
        rewrite Forall_forall in *. intros z Hz. specialize (Hy z Hz).
        unfold noShorter in *. lia.
    + constructor; [exact IH|].
      rewrite Forall_forall in *. intros z Hz.
      apply insertByLength_In in Hz as [->|Hz].
      * unfold noShorter. lia.
      * apply Hy, Hz.
Qed.

Lemma sortByLengthDesc_sorted (l : list jsstring) :
  StronglySorted noShorter (sortByLengthDesc l).
Proof.
  induction l as [|y l IH]; simpl.
  - constructor.
  - apply insertByLength_sorted, IH.
Qed.

Lemma SORTED_KEYS_eq : SORTED_KEYS = sortByLengthDesc mapKeys.
Proof. vm_compute. reflexivity. Qed.

Lemma SORTED_KEYS_sorted : StronglySorted noShorter SORTED_KEYS.
Proof. rewrite SORTED_KEYS_eq. apply sortByLengthDesc_sorted. Qed.

Lemma SORTED_KEYS_In (k : jsstring) : In k SORTED_KEYS <-> In k mapKeys.
Proof. rewrite SORTED_KEYS_eq. apply sortByLengthDesc_In. Qed.

Lemma TIMEZONE_MAP_keys_distinct : distinctBy toLowerCase mapKeys = true.
Proof. vm_compute. reflexivity. Qed.

Lemma keys_wordEnded : forallb wordEnded SORTED_KEYS = true.
Proof. vm_compute. reflexivity. Qed.

Lemma mapGet_keys : forallb (fun k => isTableValue (mapGet k)) SORTED_KEYS = true.
Proof. vm_compute. reflexivity. Qed.

(* ================================================================== *)
(** ** The regular expression *)

Lemma inRange_reflect (lo hi c : Z) :
  reflect (lo <= c <= hi) ((lo <=? c) && (c <=? hi)).
Proof.
  apply iff_reflect. rewrite andb_true_iff, !Z.leb_le. reflexivity.
Qed.

Lemma isLowerAZ_reflect (c : Z) : reflect (97 <= c <= 122) (isLowerAZ c).
Proof. apply inRange_reflect. Qed.

Lemma isUpperAZ_reflect (c : Z) : reflect (65 <= c <= 90) (isUpperAZ c).
Proof. apply inRange_reflect. Qed.

Lemma isDigit_reflect (c : Z) : reflect (48 <= c <= 57) (isDigit c).
Proof. apply inRange_reflect. Qed.

Lemma upperChar_lowerChar (c k : Z) :
  upperChar c = upperChar k -> lowerChar c = lowerChar k.
Proof.
  unfold upperChar, lowerChar.
  destruct (isLowerAZ_reflect c), (isLowerAZ_reflect k),
    (isUpperAZ_reflect c), (isUpperAZ_reflect k); lia.
Qed.

Lemma isWordChar_upperChar (c : Z) : isWordChar (upperChar c) = isWordChar c.
Proof.
  unfold upperChar. destruct (isLowerAZ_reflect c) as [L|L]; [|reflexivity].
  unfold isWordChar.
  destruct (isUpperAZ_reflect (c - 32)); [|lia].
  destruct (isLowerAZ_reflect c); [|lia].
  rewrite orb_true_r. reflexivity.
Qed.

Lemma canonicalize_word (c k : Z) :
  canonicalize c = canonicalize k -> isWordChar c = isWordChar k.
Proof.
  unfold canonicalize. intros H.
  rewrite <- (isWordChar_upperChar c), <- (isWordChar_upperChar k), H.
  reflexivity.
Qed.

(** A literal match is a prefix of the input that spells the key up to
    case. *)
Lemma matchLiteral_spec (key s raw rest : jsstring) :
  matchLiteral key s = Some (raw, rest) ->
  s = raw ++ rest /\ len raw = len key
  /\ map canonicalize raw = map canonicalize key.
Proof.
  revert s raw rest. induction key as [|k key IH]; intros s raw rest; simpl.
  - intros [= <- <-]. repeat split.
  - destruct s as [|c s]; [discriminate|].
    destruct (Z.eqb_spec (canonicalize c) (canonicalize k)) as [E|E];
      [|discriminate].
    destruct (matchLiteral key s) as [[raw' rest']|] eqn:M; [|discriminate].
    intros [= <- <-]. destruct (IH _ _ _ M) as (-> & L & C).
    unfold len in *. simpl. repeat split; congruence.
Qed.

Lemma matchAlternative_spec (before : option Z) (s key raw : jsstring) :
  matchAlternative before s key = Some raw ->
  exists rest,
    matchLiteral key s = Some (raw, rest)
    /\ wordBoundary before (hd_error s) = true
    /\ wordBoundary (lastChar before raw) (hd_error rest) = true.
Proof.
  unfold matchAlternative.
  destruct (wordBoundary before (hd_error s)); [|discriminate].
  destruct (matchLiteral key s) as [[raw' rest]|]; [|discriminate].
  destruct (wordBoundary (lastChar before raw') (hd_error rest)) eqn:B;
    [|discriminate].
  intros [= <-]. exists rest. repeat split. exact B.
Qed.

(** The alternation returns the match of the first key that matches. *)
Lemma firstAlternative_spec (before : option Z) (s raw : jsstring)
  (keys : list jsstring) :
  firstAlternative before s keys = Some raw ->
  exists pre key post,
    keys = pre ++ key :: post
    /\ matchAlternative before s key = Some raw
    /\ forall k, In k pre -> matchAlternative before s k = None.
Proof.
  induction keys as [|k keys IH]; simpl; [discriminate|].
  destruct (matchAlternative before s k) as [r|] eqn:M.
  - intros [= <-]. exists [], k, keys. repeat split; [exact M|]. intros ? [].
  - intros H. destruct (IH H) as (pre & key & post & -> & Hm & Hn).
    exists (k :: pre), key, post. repeat split; [exact Hm|].
    intros k' [<-|Hk]; [exact M | apply Hn, Hk].
Qed.

Lemma firstAlternative_none (before : option Z) (s : jsstring)
  (keys : list jsstring) :
  (forall k, In k keys -> matchAlternative before s k = None) ->
  firstAlternative before s keys = None.
Proof.
  induction keys as [|k keys IH]; simpl; intros H; [reflexivity|].
  rewrite (H k (or_introl eq_refl)). apply IH. intros k' Hk. apply H. now right.
Qed.

(** Among the keys that match at a position, the alternation over a
    list sorted longest-first returns a longest one. *)
Lemma firstAlternative_longest (before : option Z) (s raw : jsstring)
  (keys : list jsstring) :
  StronglySorted noShorter keys ->
  firstAlternative before s keys = Some raw ->
  forall key raw', In key keys -> matchAlternative before s key = Some raw' ->
                   (len raw' <= len raw)%nat.
Proof.
  intros Hs Hf key raw' Hin Hm.
  destruct (firstAlternative_spec _ _ _ _ Hf) as (pre & k0 & post & -> & M0 & Hn).
  destruct (matchAlternative_spec _ _ _ _ M0) as (r0 & L0 & _).
  destruct (matchAlternative_spec _ _ _ _ Hm) as (r1 & L1 & _).
  apply matchLiteral_spec in L0 as (_ & E0 & _), L1 as (_ & E1 & _).
  rewrite E0, E1.
  apply in_app_or in Hin as [Hin|[<-|Hin]].
  - rewrite (Hn key Hin) in Hm. discriminate.
  - lia.
  - clear - Hs Hin. induction pre as [|p pre IH]; simpl in Hs.
    + apply StronglySorted_inv in Hs as [_ Hall].
      rewrite Forall_forall in Hall. apply (Hall key Hin).
    + apply StronglySorted_inv in Hs as [Hs _]. apply IH, Hs.
Qed.

(** *** Words around a match *)

Lemma canonicalize_words (raw key : jsstring) :
  map canonicalize raw = map canonicalize key ->
  map isWordChar raw = map isWordChar key.
Proof.
  revert key. induction raw as [|c raw IH]; intros [|k key]; simpl;
    try discriminate; [reflexivity|].
  intros [= E1 E2]. rewrite (canonicalize_word c k E1), (IH key E2). reflexivity.
Qed.

Lemma isWordAt_hd (l : jsstring) :
  isWordAt (hd_error l) = hd false (map isWordChar l).
Proof. destruct l; reflexivity. Qed.

Lemma isWordAt_lastChar (before : option Z) (l : jsstring) :
  isWordAt (lastChar before l) = last (map isWordChar l) (isWordAt before).
Proof.
  unfold lastChar. induction l as [|c l IH]; [reflexivity|].
  destruct l as [|c' l]; [reflexivity|]. exact IH.
Qed.

Lemma last_default {A : Type} (l : list A) (d d' : A) :
  l <> [] -> last l d = last l d'.
Proof.
  induction l as [|x l IH]; [congruence|]. intros _.
  destruct l as [|y l]; [reflexivity|]. apply IH. discriminate.
Qed.

(** A match of a key begins and ends with a word character, and so, by
    the two [\b], has no word character on either side. *)
Lemma matchAlternative_standalone (before : option Z) (s key raw : jsstring) :
  wordEnded key = true ->
  matchAlternative before s key = Some raw ->
  exists rest,
    s = raw ++ rest /\ raw <> [] /\ len raw = len key
    /\ map canonicalize raw = map canonicalize key
    /\ isWordAt before = false /\ isWordAt (hd_error rest) = false.
Proof.
  intros Hk Hm.
  destruct (matchAlternative_spec _ _ _ _ Hm) as (rest & L & B1 & B2).
  destruct (matchLiteral_spec _ _ _ _ L) as (-> & Hlen & Hc).
  pose proof (canonicalize_words _ _ Hc) as Hw.
  apply andb_true_iff in Hk as [K1 K2].
  rewrite isWordAt_hd in K1. rewrite isWordAt_lastChar in K2.
  assert (Hne : raw <> []).
  { destruct raw; [|discriminate]. destruct key; [discriminate K1|discriminate]. }
  exists rest. repeat split; try assumption.
  - unfold wordBoundary in B1. rewrite isWordAt_hd in B1.
    destruct raw as [|c raw]; [congruence|].
    cbn [app map hd] in B1. cbn [map hd] in Hw.
    destruct key as [|k key]; [discriminate|]. cbn [map hd] in K1, Hw.
    injection Hw as Hw _. rewrite Hw, K1 in B1.
    destruct (isWordAt before); [discriminate B1 | reflexivity].
  - unfold wordBoundary in B2. rewrite isWordAt_lastChar, Hw in B2.
    rewrite (last_default _ _ (isWordAt None)) in B2.
    + rewrite K2 in B2. destruct (isWordAt (hd_error rest));
        [discriminate B2 | reflexivity].
    + destruct key; [discriminate K1 | discriminate].
Qed.

(** *** [exec] *)

Lemma execFrom_eq (before : option Z) (s : jsstring) (i : nat) :
  execFrom before s i
  = match firstAlternative before s SORTED_KEYS with
    | Some raw => Some (i, raw)
    | None =>
        match s with
        | [] => None
        | c :: s' => execFrom (Some c) s' (S i)
        end
    end.
Proof. destruct s; reflexivity. Qed.

Lemma skipn_step (i : nat) (text : jsstring) (c : Z) (s : jsstring) :
  skipn i text = c :: s ->
  skipn (S i) text = s /\ nth_error text i = Some c /\ (i < len text)%nat.
Proof.
  revert text. induction i as [|i IH]; intros [|x text]; simpl;
    try discriminate.
  - intros [= -> ->]. repeat split. unfold len. simpl. lia.
  - intros H. destruct (IH _ H) as (A & B & C). repeat split; try assumption.
    unfold len in *. simpl. lia.
Qed.

Lemma execFrom_spec (text : jsstring) (s : jsstring) :
  forall (i0 : nat) (i : nat) (raw : jsstring),
    s = skipn i0 text -> (i0 <= len text)%nat ->
    execFrom (charBefore text i0) s i0 = Some (i, raw) ->
    (i0 <= i <= len text)%nat
    /\ firstAlternative (charBefore text i) (skipn i text) SORTED_KEYS = Some raw.
Proof.
  induction s as [|c s IH]; intros i0 i raw Hs Hi; rewrite execFrom_eq.
  - destruct (firstAlternative _ [] SORTED_KEYS) as [r|] eqn:F; [|discriminate].
    intros [= <- <-]. rewrite <- Hs. split; [lia | exact F].
  - destruct (firstAlternative _ (c :: s) SORTED_KEYS) as [r|] eqn:F.
    + intros [= <- <-]. rewrite <- Hs. split; [lia | exact F].
    + intros H. symmetry in Hs. destruct (skipn_step _ _ _ _ Hs) as (A & B & C).
      assert (Hb : charBefore text (S i0) = Some c) by exact B.
      rewrite <- Hb in H.
      destruct (IH (S i0) i raw (eq_sym A) ltac:(lia) H) as [D E].
      split; [lia | exact E].
Qed.

Lemma execFrom_none (text : jsstring) (s : jsstring) :
  forall (i0 : nat),
    s = skipn i0 text ->
    execFrom (charBefore text i0) s i0 = None ->
    forall i, (i0 <= i <= len text)%nat ->
              firstAlternative (charBefore text i) (skipn i text) SORTED_KEYS = None.
Proof.
  induction s as [|c s IH]; intros i0 Hs; rewrite execFrom_eq.
  - destruct (firstAlternative _ [] SORTED_KEYS) as [r|] eqn:F; [discriminate|].
    intros _ i Hi.
    assert (len (skipn i0 text) = 0)%nat by (rewrite <- Hs; reflexivity).
    unfold len in *. rewrite length_skipn in H.
    assert (i = i0) by lia. subst i. rewrite <- Hs. exact F.
  - destruct (firstAlternative _ (c :: s) SORTED_KEYS) as [r|] eqn:F;
      [discriminate|].
    intros H i Hi. symmetry in Hs.
    destruct (skipn_step _ _ _ _ Hs) as (A & B & C).
    assert (Hb : charBefore text (S i0) = Some c) by exact B.
    rewrite <- Hb in H.
    destruct (Nat.eq_dec i i0) as [->|N].
    + rewrite Hs. exact F.
    + apply (IH (S i0) (eq_sym A) H). lia.
Qed.

(** What a successful [exec] tells: where the match is, that the
    alternation chose it there, and where [lastIndex] now stands. *)
Lemma exec_some (text : jsstring) (lastIndex i lastIndex' : nat)
  (raw : jsstring) :
  exec text lastIndex = (Some (i, raw), lastIndex') ->
  (lastIndex <= i <= len text)%nat
  /\ lastIndex' = (i + len raw)%nat
  /\ firstAlternative (charBefore text i) (skipn i text) SORTED_KEYS = Some raw.
Proof.
  unfold exec. destruct (Nat.ltb_spec (len text) lastIndex) as [L|L];
    [discriminate|].
  destruct (execFrom _ _ lastIndex) as [[j r]|] eqn:E; [|discriminate].
  intros [= <- <- <-].
  destruct (execFrom_spec text _ lastIndex j r eq_refl L E) as [A B].
  repeat split; try lia. exact B.
Qed.

Lemma exec_none (text : jsstring) (lastIndex lastIndex' : nat) :
  exec text lastIndex = (None, lastIndex') -> lastIndex' = O.
Proof.
  unfold exec. destruct (len text <? lastIndex)%nat; [congruence|].
  destruct (execFrom _ _ lastIndex) as [[j r]|]; congruence.
Qed.

Lemma keys_In_wordEnded (key : jsstring) :
  In key SORTED_KEYS -> wordEnded key = true.
Proof.
  pose proof keys_wordEnded as H. rewrite forallb_forall in H. apply H.
Qed.

(** The match [exec] reports is text of the input, spells a key of the
    table, and stands between non-word characters. *)
Lemma exec_match (text : jsstring) (lastIndex i lastIndex' : nat)
  (raw : jsstring) :
  exec text lastIndex = (Some (i, raw), lastIndex') ->
  exists key rest,
    In key SORTED_KEYS
    /\ matchAlternative (charBefore text i) (skipn i text) key = Some raw
    /\ skipn i text = raw ++ rest
    /\ raw <> [] /\ len raw = len key
    /\ map canonicalize raw = map canonicalize key
    /\ isWordAt (charBefore text i) = false
    /\ isWordAt (nth_error text (i + len raw)) = false
    /\ (lastIndex < lastIndex' <= len text)%nat.
Proof.
  intros E. destruct (exec_some _ _ _ _ _ E) as (Hi & -> & F).
  destruct (firstAlternative_spec _ _ _ _ F) as (pre & key & post & K & M & _).
  assert (Hin : In key SORTED_KEYS) by (rewrite K; apply in_elt).
  destruct (matchAlternative_standalone _ _ _ _ (keys_In_wordEnded key Hin) M)
    as (rest & S & Hne & Hlen & Hc & B1 & B2).
  exists key, rest. repeat split; try assumption.
  - rewrite <- (firstn_skipn i text) at 1. rewrite S.
    rewrite nth_error_app2 by (rewrite length_firstn; unfold len in *; lia).
    rewrite length_firstn.
    replace (i + len raw - Nat.min i (Datatypes.length text))%nat with (len raw)
      by (unfold len in *; lia).
    rewrite nth_error_app2 by (unfold len; lia).
    replace (len raw - Datatypes.length raw)%nat with O by (unfold len; lia).
    destruct rest; exact B2.
  - destruct raw; [congruence|]. unfold len. simpl. lia.
  - assert (L : len (skipn i text) = (len raw + len rest)%nat).
    { rewrite S. unfold len. apply length_app. }
    unfold len in *. rewrite length_skipn in L. lia.
Qed.

(** *** [detectTimezone] *)

Lemma toLowerCase_of_canonical (raw key : jsstring) :
  map canonicalize raw = map canonicalize key ->
  toLowerCase key = toLowerCase raw.
Proof.
  revert key. induction raw as [|c raw IH]; intros [|k key]; simpl;
    try discriminate; [reflexivity|].
  intros [= E1 E2]. unfold toLowerCase in *. simpl.
  rewrite (upperChar_lowerChar c k E1), (IH key E2). reflexivity.
Qed.

(** The key search succeeds on every match of [exec], with a key that
    spells the match up to case. *)
Lemma findKey_match (raw key : jsstring) :
  In key SORTED_KEYS ->
  map canonicalize raw = map canonicalize key ->
  exists k, findKey (toLowerCase raw) = Some k
            /\ In k SORTED_KEYS /\ toLowerCase k = toLowerCase raw.
Proof.
  intros Hin Hc. unfold findKey.
  destruct (find (fun k => streq (toLowerCase k) (toLowerCase raw)) SORTED_KEYS)
    as [k|] eqn:F.
  - apply find_some in F as [A B]. apply streq_eq in B. exists k. auto.
  - apply (find_none _ _ F) in Hin.
    rewrite (toLowerCase_of_canonical raw key Hc), streq_refl in Hin.
    discriminate.
Qed.

Lemma mapGet_key (k : jsstring) :
  In k SORTED_KEYS ->
  exists z, mapGet k = JStr z /\ In z (map snd TIMEZONE_MAP).
Proof.
  intros Hin. pose proof mapGet_keys as H. rewrite forallb_forall in H.
  specialize (H k Hin). destruct (mapGet k) as [| |z]; try discriminate.
  exists z. split; [reflexivity|].
  apply existsb_exists in H as ((a & b) & Hab & E). apply streq_eq in E.
  simpl in E. subst b. apply in_map_iff. exists (a, z). auto.
Qed.

(** One iteration of the loop. *)
Lemma detectLoop_step (fuel : nat) (text : jsstring) (lastIndex : nat) :
  detectLoop (S fuel) text lastIndex
  = match exec text lastIndex with
    | (Some (_, raw), lastIndex') =>
        if isFalsePositive raw then detectLoop fuel text lastIndex'
        else
          match findKey (toLowerCase raw) with
          | Some key => Some (mapGet key, lastIndex')
          | None => detectLoop fuel text lastIndex'
          end
    | (None, lastIndex') => Some (JNull, lastIndex')
    end.
Proof. reflexivity. Qed.

(** The loop ends before its fuel does. *)
Lemma detectLoop_total (fuel : nat) (text : jsstring) :
  forall lastIndex,
    (lastIndex <= len text)%nat -> (len text - lastIndex < fuel)%nat ->
    exists r, detectLoop fuel text lastIndex = Some r.
Proof.
  induction fuel as [|fuel IH]; intros li Hli Hf; [lia|].
  rewrite detectLoop_step.
  destruct (exec text li) as [[[i raw]|] li'] eqn:E.
  - destruct (exec_match _ _ _ _ _ E)
      as (key & rest & Hin & _ & _ & _ & _ & Hc & _ & _ & Hb).
    destruct (isFalsePositive raw).
    + apply IH; lia.
    + destruct (findKey (toLowerCase raw)); [eexists; reflexivity|].
      apply IH; lia.
  - eexists. reflexivity.
Qed.

(** Whatever the loop returns is [null] or a value of the table. *)
Lemma detectLoop_value (fuel : nat) (text : jsstring) :
  forall lastIndex v lastIndex',
    detectLoop fuel text lastIndex = Some (v, lastIndex') ->
    v = JNull \/ exists z, v = JStr z /\ In z (map snd TIMEZONE_MAP).
Proof.
  induction fuel as [|fuel IH]; intros li v li'; [discriminate|].
  rewrite detectLoop_step.
  destruct (exec text li) as [[[i raw]|] li1] eqn:E.
  - destruct (isFalsePositive raw); [apply IH|].
    destruct (findKey (toLowerCase raw)) as [k|] eqn:F; [|apply IH].
    intros [= <- <-]. right. apply mapGet_key.
    unfold findKey in F. apply find_some in F. apply F.
  - intros [= <- <-]. left. reflexivity.
Qed.

Lemma detectTimezone_total (lastIndex : nat) (text : jsstring) :
  exists r, detectTimezone lastIndex text = Some r.
Proof. apply detectLoop_total; lia. Qed.

(** The keys are ASCII, and so is every match: the ASCII case mappings
    are all [isFalsePositive] and the key search need. *)
Lemma keys_ascii : forallb (forallb isAscii) SORTED_KEYS = true.
Proof. vm_compute. reflexivity. Qed.

Lemma canonicalize_ascii (c k : Z) :
  canonicalize c = canonicalize k -> isAscii k = true -> isAscii c = true.
Proof.
  unfold canonicalize, upperChar, isAscii. intros E Hk.
  destruct (inRange_reflect 0 127 k) as [Rk|]; [|discriminate].
  destruct (isLowerAZ_reflect c), (isLowerAZ_reflect k);
    destruct (inRange_reflect 0 127 c); reflexivity || lia.
Qed.

Lemma exec_raw_ascii (text : jsstring) (lastIndex i lastIndex' : nat)
  (raw : jsstring) :
  exec text lastIndex = (Some (i, raw), lastIndex') ->
  forallb isAscii raw = true.
Proof.
  intros E.
  destruct (exec_match _ _ _ _ _ E) as (key & _ & Hin & _ & _ & _ & _ & Hc & _).
  pose proof keys_ascii as K. rewrite forallb_forall in K.
  specialize (K key Hin). clear - Hc K.
  revert key Hc K. induction raw as [|c raw IH]; intros [|k key]; simpl;
    try discriminate; [reflexivity|].
  intros [= E1 E2] K. apply andb_true_iff in K as [K1 K2].
  rewrite (canonicalize_ascii c k E1 K1). apply (IH key E2 K2).
Qed.

(** Claim C10.  [detectTimezone] returns on every text, whatever
    [lastIndex] the shared regex was left with, and what it returns is
    [null] or the zone of an entry of [TIMEZONE_MAP]; it is never
    [undefined] nor a string outside the table.  The table is a constant
    of the embedding: the only state the function writes is the regex's
    [lastIndex]. *)
Theorem detectTimezone_returns_table_value (lastIndex : nat) (text : jsstring) :
  exists v lastIndex',
    detectTimezone lastIndex text = Some (v, lastIndex')
    /\ detectTimezone O text = Some (v, lastIndex')
    /\ (v = JNull \/ exists z, v = JStr z /\ In z (map snd TIMEZONE_MAP)).
Proof.
  destruct (detectLoop_total (S (len text)) text O) as [[v li'] H]; try lia.
  exists v, li'. repeat split; try exact H.
  apply (detectLoop_value _ _ _ _ _ H).
Qed.

(** Claim C4.  A match of five characters or fewer with no space in it
    that is not all uppercase is a false positive, and the loop passes
    over a false positive to scan on from its end; so "et" in lowercase
    inside a sentence gives no zone while "ET" gives America/New_York. *)
Theorem short_lowercase_match_is_rejected :
  (forall raw,
      (len raw <= 5)%nat -> includesChar 32 raw = false ->
      raw <> toUpperCase raw -> isFalsePositive raw = true)
  /\ (forall fuel text lastIndex i raw lastIndex',
         exec text lastIndex = (Some (i, raw), lastIndex') ->
         isFalsePositive raw = true ->
         detectLoop (S fuel) text lastIndex = detectLoop fuel text lastIndex')
  /\ detectTimezone O (lit "lunch with et al at noon") = Some (JNull, O)
  /\ detectTimezone O (lit "lunch with ET al at noon") = Some (JStr NewYork, 13%nat).
Proof.
  split; [|split; [|split]].
  - intros raw H5 Hsp Hup. unfold isFalsePositive.
    apply Nat.leb_le in H5. rewrite H5, Hsp. cbn [negb andb].
    destruct (streq raw (toUpperCase raw)) eqn:E; [|reflexivity].
    apply streq_eq in E. contradiction.
  - intros fuel text li i raw li' E Hfp.
    rewrite detectLoop_step, E, Hfp. reflexivity.
  - vm_compute. reflexivity.
  - vm_compute. reflexivity.
Qed.

(** A short mixed-case match. *)
Lemma short_lowercase_match_is_rejected_witness :
  isFalsePositive (lit "Est") = true.
Proof.
  apply (proj1 short_lowercase_match_is_rejected (lit "Est")).
  - vm_compute. lia.
  - reflexivity.
  - discriminate.
Defined.






(** Claim C5.  The match the regex reports at a position is at least as
    long as the match of every alias that matches at that position, and
    an accepted match resolves to the zone of the key it spells; so
    "Eastern Standard Time" is matched as a whole although "Eastern"
    matches there too, and "Central European Time" resolves to
    Europe/Paris, not to the zone of "Central". *)
Theorem longest_alias_wins :
  (forall text lastIndex i raw lastIndex' key raw',
      exec text lastIndex = (Some (i, raw), lastIndex') ->
      In key mapKeys ->
      matchAlternative (charBefore text i) (skipn i text) key = Some raw' ->
      (len raw' <= len raw)%nat)
  /\ (forall fuel text lastIndex i raw lastIndex',
         exec text lastIndex = (Some (i, raw), lastIndex') ->
         isFalsePositive raw = false ->
         exists key z,
           In key mapKeys /\ toLowerCase key = toLowerCase raw
           /\ mapGet key = JStr z
           /\ detectLoop (S fuel) text lastIndex = Some (JStr z, lastIndex'))
  /\ matchAlternative None (lit "Eastern Standard Time") (lit "Eastern")
     = Some (lit "Eastern")
  /\ exec (lit "Eastern Standard Time") O
     = (Some (O, lit "Eastern Standard Time"), 21%nat)
  /\ detectTimezone O (lit "Eastern Standard Time") = Some (JStr NewYork, 21%nat)
  /\ detectTimezone O (lit "Central European Time")
     = Some (JStr (lit "Europe/Paris"), 21%nat).
Proof.
  split; [|split; [|repeat split; vm_compute; reflexivity]].
  - intros text li i raw li' key raw' E Hin M.
    destruct (exec_some _ _ _ _ _ E) as (_ & _ & F).
    apply (firstAlternative_longest _ _ _ _ SORTED_KEYS_sorted F key raw');
      [apply SORTED_KEYS_In, Hin | exact M].
  - intros fuel text li i raw li' E Hfp.
    destruct (exec_match _ _ _ _ _ E)
      as (key & rest & Hin & _ & _ & _ & _ & Hc & _).
    destruct (findKey_match raw key Hin Hc) as (k & Hk & Hkin & Hlow).
    destruct (mapGet_key k Hkin) as (z & Hz & _).
    exists k, z. repeat split; try assumption.
    + apply SORTED_KEYS_In, Hkin.
    + rewrite detectLoop_step, E, Hfp, Hk, Hz. reflexivity.
Qed.

Lemma existsb_In (k : jsstring) (l : list jsstring) :
  existsb (streq k) l = true -> In k l.
Proof.
  intros H. apply existsb_exists in H as (x & Hx & E).
  apply streq_eq in E. congruence.
Qed.

(** "Eastern" against the match found in "Eastern Standard Time". *)
Lemma longest_alias_wins_witness :
  (len (lit "Eastern") <= len (lit "Eastern Standard Time"))%nat.
Proof.
  apply (proj1 longest_alias_wins (lit "Eastern Standard Time") O O
           (lit "Eastern Standard Time") 21%nat (lit "Eastern") (lit "Eastern")).
  - vm_compute. reflexivity.
  - apply existsb_In. vm_compute. reflexivity.
  - vm_compute. reflexivity.
Defined.

(** *** [componentsToWallClock] *)

Lemma HourFromTime_MakeDate (day h mi s : Z) :
  0 <= h <= 23 -> 0 <= mi <= 59 -> 0 <= s <= 59 ->
  HourFromTime (MakeDate day (MakeTime h mi s 0)) = h.
Proof.
  intros Hh Hmi Hs.
  unfold HourFromTime, MakeDate, MakeTime, msPerDay, msPerHour, msPerMinute,
    msPerSecond.
  Z.div_mod_to_equations. lia.
Qed.

Lemma newDateLocal_getHours (host : Host) (a : DateArgs) (h mi s : Z) :
  hostHasWallClock host a ->
  a_hour a = Some h -> a_minute a = Some mi -> a_second a = Some s ->
  0 <= h <= 23 -> 0 <= mi <= 59 -> 0 <= s <= 59 ->
  getHours host (newDateLocal host a) = Some h.
Proof.
  intros (w & t & Hw & Hd & Hl) Eh Emi Es Hh Hmi Hs.
  rewrite Hd. unfold getHours, localField. rewrite Hl.
  unfold wallValue in Hw. rewrite Eh, Emi, Es in Hw.
  destruct (a_year a), (a_month a), (a_day a); try discriminate.
  injection Hw as <-. f_equal. apply HourFromTime_MakeDate; assumption.
Qed.

(** Claim C6.  With an hour component [h]: under the AM flag [h = 12]
    resolves to hour 0, and under the PM flag [h < 12] resolves to
    [h + 12].  The resolved hour is the one the constructed date shows
    whenever the host's zone has that wall-clock time. *)
Theorem meridiem_correction (host : Host) (components : Components)
  (ref : option Date) (h : Z) :
  c_hour components = Some h ->
  let args := wallClockArgs host components ref in
  (c_meridiem components = Some 0 -> h = 12 -> a_hour args = Some 0)
  /\ (c_meridiem components = Some 1 -> h < 12 -> a_hour args = Some (h + 12))
  /\ (forall h24 mi s,
         a_hour args = Some h24 -> a_minute args = Some mi ->
         a_second args = Some s ->
         0 <= h24 <= 23 -> 0 <= mi <= 59 -> 0 <= s <= 59 ->
         hostHasWallClock host args ->
         getHours host (componentsToWallClock host components ref) = Some h24).
Proof.
  intros Hh args. split; [|split].
  - intros Hm ->. unfold args, wallClockArgs. cbn [a_hour].
    rewrite Hh, Hm. reflexivity.
  - intros Hm Hlt. unfold args, wallClockArgs. cbn [a_hour].
    rewrite Hh, Hm. cbn [nullish strictEq lessThan nmap2].
    apply Z.ltb_lt in Hlt. rewrite Hlt. reflexivity.
  - intros h24 mi s E1 E2 E3 R1 R2 R3 Hhost.
    apply (newDateLocal_getHours host args h24 mi s); assumption.
Qed.

(** Hour 6 with the PM flag resolves to 18. *)
Lemma meridiem_correction_witness :
  a_hour (wallClockArgs utcHost sixPM None) = Some 18
  /\ getHours utcHost (componentsToWallClock utcHost sixPM None) = Some 18.
Proof.
  pose proof (meridiem_correction utcHost sixPM None 6 eq_refl) as H.
  cbv zeta in H. destruct H as (_ & Hpm & Hdate). split.
  - exact (Hpm eq_refl ltac:(lia)).
  - apply (Hdate 18 0 0); try reflexivity; try lia.
    exists 1739988000000, 1739988000000. repeat split.
Defined.

(** *** [parseSelectedText] *)

(** Claim C8.  When the extractor finds nothing in the normalised text
    (an empty list, or a falsy result), [parseSelectedText] returns
    [null].  The embedding of [parseSelectedText] is a total function
    with no exceptional outcome: nothing it calls can throw. *)
Theorem no_match_returns_null (host : Host) (text : jsstring) :
  let found := chronoParse host (normalizeForChrono text) (newDateNow host) in
  found = Some [] \/ found = None ->
  parseSelectedText host text = None.
Proof.
  intros found H. unfold parseSelectedText. fold found.
  destruct H as [-> | ->]; reflexivity.
Qed.

(** A text in which the sample host's extractor finds nothing. *)
Lemma no_match_returns_null_witness :
  parseSelectedText utcHost (lit "hello world") = None.
Proof.
  apply (no_match_returns_null utcHost (lit "hello world")).
  left. reflexivity.
Defined.




(* ================================================================== *)
(** * Further properties *)

(** ** [wallClockToUTC] and [getUtcOffset] *)

(** Whole-second time values with the same calendar fields are equal. *)
Lemma civilFields_injective (a b : Z) :
  msFromTime a = 0 -> msFromTime b = 0 ->
  civilFields a = civilFields b -> a = b.
Proof.
  intros Ha Hb E. unfold civilFields in E.
  injection E as Ey Emo Ed Eh Emi Es.
  assert (Em : MonthFromTime a = MonthFromTime b) by lia.
  pose proof (MakeDate_fields a) as Fa. pose proof (MakeDate_fields b) as Fb.
  rewrite Ey, Em, Ed, Eh, Emi, Es in Fa. lia.
Qed.

(** The hour [getUtcOffset] reads is the zone's hour, whether or not
    the engine prints midnight as 24. *)
Lemma hour_part_read (quirk : bool) (h : Z) :
  0 <= h <= 23 ->
  (if strictEq (parseInt (pad2 (if quirk && (h =? 0) then 24 else h))) 24
   then Some 0
   else parseInt (pad2 (if quirk && (h =? 0) then 24 else h)))
  = Some h.
Proof.
  intros Hh. destruct (quirk && (h =? 0)) eqn:Q.
  - apply andb_true_iff in Q as [_ Q]. apply Z.eqb_eq in Q. rewrite Q.
    reflexivity.
  - rewrite parseInt_pad2 by lia. cbn [strictEq].
    destruct (Z.eqb_spec h 24); [lia | reflexivity].
Qed.

(** [getUtcOffset] depends on the host through the zone's rules only. *)
Lemma getUtcOffset_same_rules (host1 host2 : Host) (d : Date) (tz : jsstring) :
  timeZones host1 tz = timeZones host2 tz ->
  getUtcOffset host1 d tz = getUtcOffset host2 d tz.
Proof.
  intros Hz. unfold getUtcOffset, newDateTimeFormat. rewrite Hz.
  destruct (timeZones host2 tz) as [rules|]; [|reflexivity]. cbn [bind].
  destruct d as [|e]; [reflexivity|].
  unfold formatToPartsNumeric. cbn [bind].
  set (zl := zoneLocalTime rules e).
  pose proof (HourFromTime_range zl) as Hh.
  pose proof (fun q => getPart_numeric
                (pad2 (MonthFromTime zl + 1)) (pad2 (DateFromTime zl))
                (numberToString (eraYear (YearFromTime zl)))
                (pad2 (if q && (HourFromTime zl =? 0)
                       then 24 else HourFromTime zl))
                (pad2 (MinFromTime zl)) (pad2 (SecFromTime zl))) as G.
  cbv zeta in G.
  destruct (G (midnightAs24 host1)) as (Gy & Gmo & Gd & Gh & Gmi & Gs).
  rewrite Gy, Gmo, Gd, Gh, Gmi, Gs. clear Gy Gmo Gd Gh Gmi Gs.
  destruct (G (midnightAs24 host2)) as (Gy & Gmo & Gd & Gh & Gmi & Gs).
  rewrite Gy, Gmo, Gd, Gh, Gmi, Gs.
  rewrite !hour_part_read by exact Hh. reflexivity.
Qed.

(** Extra X1.  [wallClockToUTC] reads its date argument only through the
    six local getters, and the host only through the rules of the given
    zone: two hosts that resolve [tz] to the same rules, given dates
    that show the same year, month, day, hour, minute and second in
    their own local zones, return the same result (the same instant or
    the same error).  The machine's own zone and its spelling of
    midnight do not matter. *)
Theorem wallClockToUTC_reads_fields_only (host1 host2 : Host) (d1 d2 : Date)
  (tz : jsstring) :
  timeZones host1 tz = timeZones host2 tz ->
  wallClockFields host1 d1 = wallClockFields host2 d2 ->
  wallClockToUTC host1 d1 tz = wallClockToUTC host2 d2 tz.
Proof.
  intros Hz Hf. unfold wallClockToUTC.
  assert (G : getFullYear host1 d1 = getFullYear host2 d2
              /\ getMonth host1 d1 = getMonth host2 d2
              /\ getDate host1 d1 = getDate host2 d2
              /\ getHours host1 d1 = getHours host2 d2
              /\ getMinutes host1 d1 = getMinutes host2 d2
              /\ getSeconds host1 d1 = getSeconds host2 d2).
  { destruct d1 as [|t1], d2 as [|t2]; try discriminate Hf.
    - repeat split.
    - cbn [wallClockFields] in Hf. unfold civilFields in Hf.
      injection Hf as Ey Emo Ed Eh Emi Es.
      unfold getFullYear, getMonth, getDate, getHours, getMinutes, getSeconds,
        localField.
      repeat split; f_equal; lia. }
  destruct G as (-> & -> & -> & -> & -> & ->).
  rewrite (getUtcOffset_same_rules host1 host2 _ tz Hz). reflexivity.
Qed.

Lemma wallClockToUTC_reads_fields_only_witness :
  wallClockToUTC (sampleHost 120 []) (makeDate (sampleHost 120 []) 2025 2 18 9 0)
    (lit "America/New_York")
  = wallClockToUTC utcHost (makeDate utcHost 2025 2 18 9 0)
      (lit "America/New_York").
Proof.
  apply wallClockToUTC_reads_fields_only.
  - reflexivity.
  - vm_compute. reflexivity.
Defined.

(** Extra X2.  An invalid [Date] is not converted: in a zone the host
    knows, [wallClockToUTC] throws the [RangeError] "Invalid time value"
    (raised by [formatToParts] on the invalid estimate), [convertParsed]
    throws the same error for a parsed value whose start is invalid,
    and [updateResult] then shows "Conversion error". *)
Theorem invalid_date_is_reported (host : Host) (tz : jsstring)
  (rules : ZoneRules) :
  timeZones host tz = Some rules ->
  wallClockToUTC host InvalidDate tz = Throw (RangeError (lit "Invalid time value"))
  /\ (forall parsed to,
         p_start parsed = InvalidDate ->
         convertParsed host parsed tz to
         = Throw (RangeError (lit "Invalid time value")))
  /\ (forall view to,
         resultTime (updateResult host
                       {| p_start := InvalidDate; p_end := None;
                          hasRange := false |} tz to view)
         = lit "Conversion error").
Proof.
  intros Hz.
  assert (W : wallClockToUTC host InvalidDate tz
              = Throw (RangeError (lit "Invalid time value"))).
  { unfold wallClockToUTC, getUtcOffset, newDateTimeFormat. rewrite Hz.
    reflexivity. }
  split; [exact W|]. split.
  - intros parsed to Hs. unfold convertParsed. rewrite Hs, W. reflexivity.
  - intros view to. unfold updateResult, convertParsed. cbn [p_start].
    rewrite W. reflexivity.
Qed.

Lemma invalid_date_is_reported_witness :
  wallClockToUTC utcHost InvalidDate (lit "UTC")
  = Throw (RangeError (lit "Invalid time value")).
Proof.
  exact (proj1 (invalid_date_is_reported utcHost (lit "UTC") utcRules eq_refl)).
Defined.

(** Extra X3.  For a wall-clock date in the years 1000 to 9999 and a zone
    whose offset at the estimate is within a day, [wallClockToUTC]
    returns the estimate minus that offset, and the instant reads back
    in the zone as the wall-clock fields exactly when the zone's offset
    at the returned instant equals its offset at the estimate. *)
Theorem wallClockToUTC_roundtrip_exactly_when (host : Host) (tz : jsstring)
  (rules : ZoneRules) (t : Z) :
  let wall := LocalTime host t in
  let estimate := wall - msFromTime wall in
  let offset := offsetAt rules estimate in
  let instant := estimate - offset * 60000 in
  timeZones host tz = Some rules ->
  1000 <= YearFromTime wall <= 9999 ->
  -1440 <= offset <= 1440 ->
  wallClockToUTC host (TimeValue t) tz = Ok (TimeValue instant)
  /\ (zoneCivilFields host (TimeValue instant) tz = Ok (civilFields wall)
      <-> offsetAt rules instant = offset).
Proof.
  intros wall estimate offset instant Hz Hy Hoff.
  split; [apply wallClockToUTC_value; assumption|].
  assert (Hms : 0 <= msFromTime wall < 1000).
  { unfold msFromTime, msPerSecond. apply Z.mod_pos_bound. lia. }
  assert (He : msFromTime estimate = 0).
  { unfold estimate, msFromTime, msPerSecond in *. Z.div_mod_to_equations. lia. }
  assert (Hf : civilFields wall = civilFields estimate).
  { unfold estimate. symmetry. apply civilFields_whole_seconds. }
  unfold zoneCivilFields, newDateTimeFormat. rewrite Hz. cbn [bind].
  unfold zoneLocalTime, msPerMinute. rewrite Hf. split.
  - intros E.
    apply (f_equal (fun r => match r with
                             | Ok f => f
                             | Throw _ => civilFields estimate
                             end)) in E.
    apply civilFields_injective in E; [lia | | exact He].
    unfold instant, msFromTime, msPerSecond in *. Z.div_mod_to_equations. lia.
  - intros ->. do 2 f_equal. unfold instant. lia.
Qed.

Lemma wallClockToUTC_roundtrip_exactly_when_witness :
  zoneCivilFields utcHost (TimeValue 1741509000000) (lit "America/New_York")
  = Ok (civilFields 1741491000000)
  <-> offsetAt newYork2025 1741509000000 = -300.
Proof.
  pose proof (wallClockToUTC_roundtrip_exactly_when utcHost
                (lit "America/New_York") newYork2025 1741491000000) as H.
  cbv zeta in H.
  specialize (H eq_refl).
  specialize (H ltac:(vm_compute; split; discriminate)).
  specialize (H ltac:(vm_compute; split; discriminate)).
  destruct H as [_ H].
  vm_cast_no_check H.
Defined.

(** Extra X4.  At a whole second in the years 1000 to 9999,
    [getUtcOffset] recovers from the formatted parts exactly the offset
    of the zone's rules, in minutes, provided it is within a day; the
    result is the same on every host that resolves the zone to these
    rules. *)
Theorem getUtcOffset_reads_provider_offset (host : Host) (tz : jsstring)
  (rules : ZoneRules) (e : Z) :
  timeZones host tz = Some rules ->
  msFromTime e = 0 ->
  1000 <= YearFromTime e <= 9999 ->
  -1440 <= offsetAt rules e <= 1440 ->
  getUtcOffset host (TimeValue e) tz = Ok (Some (offsetAt rules e))
  /\ (forall other, timeZones other tz = Some rules ->
                    getUtcOffset other (TimeValue e) tz
                    = getUtcOffset host (TimeValue e) tz).
Proof.
  intros Hz Hms Hy Hoff. split.
  - apply getUtcOffset_estimate; assumption.
  - intros other Ho. apply getUtcOffset_same_rules. congruence.
Qed.

Lemma getUtcOffset_reads_provider_offset_witness :
  getUtcOffset utcHost (TimeValue 1739869200000) (lit "America/Los_Angeles")
  = Ok (Some (-480)).
Proof.
  pose proof (getUtcOffset_reads_provider_offset utcHost
                (lit "America/Los_Angeles") losAngeles2025 1739869200000) as H.
  specialize (H eq_refl).
  specialize (H ltac:(vm_compute; reflexivity)).
  specialize (H ltac:(vm_compute; split; discriminate)).
  specialize (H ltac:(vm_compute; split; discriminate)).
  destruct H as [H _].
  vm_cast_no_check H.
Defined.

(** ** [convertParsed] and [convertTime] *)

Lemma formatTimeShort_clock (rules : ZoneRules) (t : Z) :
  formatTimeShort rules (TimeValue t) = Ok (clockString (zoneLocalTime rules t)).
Proof. reflexivity. Qed.

Lemma wallClockToUTC_of_fields (host : Host) (tz : jsstring) (rules : ZoneRules)
  (d : Date) (y mo dd h mi s : Z) :
  timeZones host tz = Some rules ->
  wallClockFields host d = Some (y, mo, dd, h, mi, s) ->
  1000 <= y <= 9999 ->
  let e := MakeDate (MakeDay y (mo - 1) dd) (MakeTime h mi s 0) in
  -1440 <= offsetAt rules e <= 1440 ->
  wallClockToUTC host d tz = Ok (TimeValue (e - offsetAt rules e * 60000)).
Proof.
  intros Hz Hw Hy e Hoff.
  destruct d as [|t]; [discriminate Hw|].
  cbn [wallClockFields] in Hw. injection Hw as Ey Emo Ed Eh Emi Es.
  assert (Ee : e = LocalTime host t - msFromTime (LocalTime host t)).
  { unfold e. rewrite <- MakeDate_fields, Ey, Ed, Eh, Emi, Es.
    replace (MonthFromTime (LocalTime host t)) with (mo - 1) by lia.
    reflexivity. }
  pose proof (wallClockToUTC_value host tz rules t) as V. cbv zeta in V.
  rewrite <- Ee in V. apply V; [exact Hz | lia | exact Hoff].
Qed.

(** Extra X5.  A parsed value with a start and an end converts both
    through the source zone's offset at their own estimates; the date
    line and the zone name are taken at the start instant only, the
    time line is the start's clock reading, an en dash between two
    spaces, and the end's clock reading, both in the target zone; the
    zone name falls back to the identifier [to].  The [hasRange] flag
    is not consulted. *)
Theorem convertParsed_range (host : Host) (from to : jsstring)
  (rf rt : ZoneRules) (start finish : Date) (flag : bool)
  (y1 mo1 d1 h1 mi1 s1 y2 mo2 d2 h2 mi2 s2 : Z) :
  timeZones host from = Some rf ->
  timeZones host to = Some rt ->
  wallClockFields host start = Some (y1, mo1, d1, h1, mi1, s1) ->
  wallClockFields host finish = Some (y2, mo2, d2, h2, mi2, s2) ->
  1000 <= y1 <= 9999 -> 1000 <= y2 <= 9999 ->
  let e1 := MakeDate (MakeDay y1 (mo1 - 1) d1) (MakeTime h1 mi1 s1 0) in
  let e2 := MakeDate (MakeDay y2 (mo2 - 1) d2) (MakeTime h2 mi2 s2 0) in
  -1440 <= offsetAt rf e1 <= 1440 -> -1440 <= offsetAt rf e2 <= 1440 ->
  let u1 := e1 - offsetAt rf e1 * 60000 in
  let u2 := e2 - offsetAt rf e2 * 60000 in
  exists conv,
    convertParsed host
      {| p_start := start; p_end := Some finish; hasRange := flag |} from to
    = Ok conv
    /\ startUTC conv = TimeValue u1
    /\ endUTC conv = Some (TimeValue u2)
    /\ Ok (displayDate conv) = formatDateLong rt (TimeValue u1)
    /\ displayTime conv
       = clockString (zoneLocalTime rt u1) ++ [32; 8211; 32]
         ++ clockString (zoneLocalTime rt u2)
    /\ displayTZ conv = match longNameAt rt u1 with
                        | Some name => name
                        | None => to
                        end.
Proof.
  intros Hf Ht Hw1 Hw2 Hy1 Hy2 e1 e2 Ho1 Ho2 u1 u2.
  pose proof (wallClockToUTC_of_fields host from rf start _ _ _ _ _ _
                Hf Hw1 Hy1 Ho1) as V1.
  pose proof (wallClockToUTC_of_fields host from rf finish _ _ _ _ _ _
                Hf Hw2 Hy2 Ho2) as V2.
  fold e1 in V1. fold u1 in V1. fold e2 in V2. fold u2 in V2.
  unfold convertParsed. cbn [p_start p_end]. rewrite V1, V2. cbn [bind].
  unfold newDateTimeFormat. rewrite Ht. cbn [bind].
  unfold formatDateLong, formatToPartsZoneName. rewrite !formatTimeShort_clock.
  cbn [bind].
  eexists. split; [reflexivity|].
  cbn [startUTC endUTC displayDate displayTime displayTZ].
  repeat split.
  destruct (longNameAt rt u1); reflexivity.
Qed.

Lemma convertParsed_range_witness :
  exists conv,
    convertParsed utcHost
      {| p_start := makeDate utcHost 2025 2 18 9 0;
         p_end := Some (makeDate utcHost 2025 2 18 13 0);
         hasRange := true |}
      (lit "America/New_York") (lit "America/Los_Angeles")
    = Ok conv
    /\ displayTime conv = lit "6:00 AM" ++ [32; 8211; 32] ++ lit "10:00 AM".
Proof.
  pose proof (convertParsed_range utcHost (lit "America/New_York")
                (lit "America/Los_Angeles") newYork2025 losAngeles2025
                (makeDate utcHost 2025 2 18 9 0)
                (makeDate utcHost 2025 2 18 13 0) true
                2025 2 18 9 0 0 2025 2 18 13 0 0) as H.
  cbv zeta in H.
  specialize (H eq_refl eq_refl).
  specialize (H ltac:(vm_compute; reflexivity) ltac:(vm_compute; reflexivity)).
  specialize (H ltac:(lia) ltac:(lia)).
  specialize (H ltac:(vm_compute; split; discriminate)
                ltac:(vm_compute; split; discriminate)).
  destruct H as (conv & Hc & _ & _ & _ & Ht & _).
  exists conv. split; [exact Hc|].
  rewrite Ht. vm_compute. reflexivity.
Defined.

(** Extra X6.  Converting a single wall-clock time shifts it by the
    difference of the two offsets: what is displayed is the clock
    reading and long date of the wall-clock value plus (target offset
    at the instant minus source offset at the estimate) minutes, and
    the returned instant reads back in the target zone as those
    fields. *)
Theorem convertParsed_shifts_wall_clock (host : Host) (from to : jsstring)
  (rf rt : ZoneRules) (start : Date) (flag : bool) (y mo d h mi s : Z) :
  timeZones host from = Some rf ->
  timeZones host to = Some rt ->
  wallClockFields host start = Some (y, mo, d, h, mi, s) ->
  1000 <= y <= 9999 ->
  let e := MakeDate (MakeDay y (mo - 1) d) (MakeTime h mi s 0) in
  let u := e - offsetAt rf e * 60000 in
  let shown := e + (offsetAt rt u - offsetAt rf e) * 60000 in
  -1440 <= offsetAt rf e <= 1440 ->
  exists conv,
    convertParsed host {| p_start := start; p_end := None; hasRange := flag |}
      from to = Ok conv
    /\ displayTime conv = clockString shown
    /\ displayDate conv = dateString shown
    /\ zoneCivilFields host (startUTC conv) to = Ok (civilFields shown).
Proof.
  intros Hf Ht Hw Hy e u shown Hoff.
  pose proof (wallClockToUTC_of_fields host from rf start _ _ _ _ _ _
                Hf Hw Hy Hoff) as V.
  fold e in V. fold u in V.
  assert (Hs : zoneLocalTime rt u = shown).
  { unfold zoneLocalTime, shown, u, msPerMinute. lia. }
  unfold convertParsed. cbn [p_start p_end]. rewrite V. cbn [bind].
  unfold newDateTimeFormat. rewrite Ht. cbn [bind].
  unfold formatDateLong, formatToPartsZoneName. rewrite !formatTimeShort_clock.
  cbn [bind].
  eexists. split; [reflexivity|].
  cbn [startUTC displayDate displayTime].
  unfold zoneCivilFields, newDateTimeFormat. rewrite Ht. cbn [bind].
  rewrite Hs.
  repeat split.
Qed.

Lemma convertParsed_shifts_wall_clock_witness :
  exists conv,
    convertParsed utcHost (fixture utcHost 2025 2 19 9 0)
      (lit "America/Los_Angeles") (lit "GMT") = Ok conv
    /\ displayTime conv = clockString (1739955600000 + (0 - -480) * 60000).
Proof.
  pose proof (convertParsed_shifts_wall_clock utcHost
                (lit "America/Los_Angeles") (lit "GMT") losAngeles2025 gmtRules
                (makeDate utcHost 2025 2 19 9 0) false 2025 2 19 9 0 0) as H.
  cbv zeta in H.
  specialize (H eq_refl eq_refl).
  specialize (H ltac:(vm_compute; reflexivity) ltac:(lia)).
  specialize (H ltac:(vm_compute; split; discriminate)).
  destruct H as (conv & Hc & Ht & _).
  exists conv. split; [exact Hc|].
  rewrite Ht. vm_compute. reflexivity.
Defined.

(** Extra X7.  [convertTime] and [convertParsed] on a single time agree:
    one succeeds exactly when the other does, [convertTime]'s [date] is
    [convertParsed]'s [startUTC], and an error of [convertTime] is the
    error of [convertParsed]. *)
Theorem convertTime_agrees_with_convertParsed (host : Host)
  (render : ZoneRules -> Z -> jsstring) (d : Date) (from to : jsstring) :
  let single := {| p_start := d; p_end := None; hasRange := false |} in
  (forall conv,
      convertParsed host single from to = Ok conv ->
      exists text, convertTime host render d from to = Ok (startUTC conv, text))
  /\ (forall date text,
         convertTime host render d from to = Ok (date, text) ->
         exists conv, convertParsed host single from to = Ok conv
                      /\ startUTC conv = date)
  /\ (forall e,
         convertTime host render d from to = Throw e ->
         convertParsed host single from to = Throw e).
Proof.
  intros single. subst single. unfold convertParsed, convertTime, formatWith.
  cbn [p_start p_end].
  destruct (wallClockToUTC host d from) as [u|e0]; cbn [bind].
  2:{ repeat split; intros; try discriminate. congruence. }
  unfold newDateTimeFormat.
  destruct (timeZones host to) as [rt|]; cbn [bind].
  2:{ repeat split; intros; try discriminate. congruence. }
  destruct u as [|t]; cbn [bind formatDateLong formatTimeShort
                            formatToPartsZoneName invalidTimeValue].
  - repeat split; intros; try discriminate. congruence.
  - repeat split.
    + intros conv [= <-]. eexists. reflexivity.
    + intros date text [= <- <-]. eexists. split; reflexivity.
    + intros e H. discriminate H.
Qed.

(** ** The calendar, from fields back to fields *)

Lemma DayFromYear_mono (a b : Z) : a <= b -> DayFromYear a <= DayFromYear b.
Proof. intros H. unfold DayFromYear. Z.div_mod_to_equations. lia. Qed.

Lemma YearFromDay_unique (y n : Z) :
  DayFromYear y <= n < DayFromYear (y + 1) -> YearFromDay n = y.
Proof.
  intros H. pose proof (YearFromDay_spec n) as S.
  destruct (Z.lt_trichotomy (YearFromDay n) y) as [L|[E|L]]; [|exact E|].
  - pose proof (DayFromYear_mono (YearFromDay n + 1) y ltac:(lia)). lia.
  - pose proof (DayFromYear_mono (y + 1) (YearFromDay n) ltac:(lia)). lia.
Qed.

Lemma Day_MakeDate (day tod : Z) :
  0 <= tod < msPerDay -> Day (MakeDate day tod) = day.
Proof.
  intros H. unfold Day, MakeDate, msPerDay in *. Z.div_mod_to_equations. lia.
Qed.

Lemma MakeTime_range (h mi s : Z) :
  0 <= h <= 23 -> 0 <= mi <= 59 -> 0 <= s <= 59 ->
  0 <= MakeTime h mi s 0 < msPerDay.
Proof.
  intros. unfold MakeTime, msPerHour, msPerMinute, msPerSecond, msPerDay. lia.
Qed.

Lemma month_cases (m : Z) :
  0 <= m <= 11 ->
  m = 0 \/ m = 1 \/ m = 2 \/ m = 3 \/ m = 4 \/ m = 5 \/ m = 6 \/ m = 7
  \/ m = 8 \/ m = 9 \/ m = 10 \/ m = 11.
Proof. lia. Qed.

Lemma monthOfYearDay_unique (leap : bool) (m d : Z) :
  0 <= m <= 11 -> 1 <= d <= DaysInMonth leap m ->
  monthOfYearDay leap (daysBeforeMonth leap m + d - 1) = m
  /\ 0 <= daysBeforeMonth leap m + d - 1 < (if leap then 366 else 365).
Proof.
  intros Hm Hd. apply month_cases in Hm.
  unfold monthOfYearDay.
  repeat match goal with
         | H : _ \/ _ |- _ => destruct H as [H|H]
         end; subst m; destruct leap;
    cbn [daysBeforeMonth DaysInMonth] in *;
    repeat match goal with
           | |- context [if ?a <? ?b then _ else _] =>
               destruct (Z.ltb_spec a b); try lia
           end.
Qed.

Lemma MinFromTime_MakeDate (day h mi s : Z) :
  0 <= h <= 23 -> 0 <= mi <= 59 -> 0 <= s <= 59 ->
  MinFromTime (MakeDate day (MakeTime h mi s 0)) = mi.
Proof.
  intros. unfold MinFromTime, MakeDate, MakeTime, msPerDay, msPerHour,
    msPerMinute, msPerSecond.
  Z.div_mod_to_equations. lia.
Qed.

Lemma SecFromTime_MakeDate (day h mi s : Z) :
  0 <= h <= 23 -> 0 <= mi <= 59 -> 0 <= s <= 59 ->
  SecFromTime (MakeDate day (MakeTime h mi s 0)) = s.
Proof.
  intros. unfold SecFromTime, MakeDate, MakeTime, msPerDay, msPerHour,
    msPerMinute, msPerSecond.
  Z.div_mod_to_equations. lia.
Qed.

(** A valid calendar date and time of day read back from the time
    value [MakeDate] builds of them. *)
Lemma civilFields_MakeDate (y m d h mi s : Z) :
  0 <= m <= 11 -> 1 <= d <= DaysInMonth (isLeapYear y) m ->
  0 <= h <= 23 -> 0 <= mi <= 59 -> 0 <= s <= 59 ->
  civilFields (MakeDate (MakeDay y m d) (MakeTime h mi s 0))
  = (y, m + 1, d, h, mi, s).
Proof.
  intros Hm Hd Hh Hmi Hs.
  destruct (monthOfYearDay_unique (isLeapYear y) m d Hm Hd) as [Mo R].
  set (t := MakeDate (MakeDay y m d) (MakeTime h mi s 0)).
  assert (D : Day t = DayFromYear y + daysBeforeMonth (isLeapYear y) m + d - 1).
  { unfold t. rewrite Day_MakeDate by (apply MakeTime_range; assumption).
    unfold MakeDay. rewrite Z.div_small, Z.mod_small by lia.
    rewrite Z.add_0_r. reflexivity. }
  assert (Y : YearFromTime t = y).
  { unfold YearFromTime. apply YearFromDay_unique. rewrite D, DayFromYear_succ.
    unfold DaysInYear. destruct (isLeapYear y); lia. }
  assert (W : DayWithinYear t = daysBeforeMonth (isLeapYear y) m + d - 1).
  { unfold DayWithinYear. rewrite Y, D. lia. }
  assert (M : MonthFromTime t = m).
  { unfold MonthFromTime. rewrite Y, W. exact Mo. }
  unfold civilFields. rewrite Y, M.
  unfold DateFromTime. rewrite Y, M, W.
  unfold t. rewrite HourFromTime_MakeDate, MinFromTime_MakeDate,
    SecFromTime_MakeDate by assumption.
  repeat f_equal. lia.
Qed.

(** ** [componentsToWallClock] *)

(** Extra X8.  The hour [componentsToWallClock] passes on, when the
    parser found one: with the AM or PM flag and an hour from 0 to 12
    it is the hour modulo 12, plus 12 for PM (so 12 AM is 0 and 12 PM
    is 12); an hour above 12 is kept whatever the flag; without a flag
    the hour is kept; and an hour from 0 to 23 always gives an hour
    from 0 to 23. *)
Theorem twelve_hour_clock (host : Host) (components : Components)
  (ref : option Date) (h : Z) :
  c_hour components = Some h ->
  let resolved := a_hour (wallClockArgs host components ref) in
  (forall m, c_meridiem components = Some m -> m = 0 \/ m = 1 ->
             0 <= h <= 12 -> resolved = Some (h mod 12 + 12 * m))
  /\ (12 < h -> resolved = Some h)
  /\ (c_meridiem components = None -> resolved = Some h)
  /\ (0 <= h <= 23 -> exists h24, resolved = Some h24 /\ 0 <= h24 <= 23).
Proof.
  intros Hh resolved. unfold resolved, wallClockArgs. cbn [a_hour].
  rewrite Hh. cbn [nullish lessThan nmap2].
  destruct (c_meridiem components) as [m|]; cbn [strictEq andb].
  - destruct (Z.eqb_spec m 1) as [M1|M1], (Z.eqb_spec m 0) as [M0|M0];
      try lia; cbn [andb];
      destruct (Z.ltb_spec h 12) as [L|L]; cbn [strictEq];
      try destruct (Z.eqb_spec h 12) as [E|E];
      try destruct (Z.eqb_spec (h + 12) 12) as [E'|E'];
      repeat split; intros;
      try discriminate; try lia;
      try match goal with
          | H : Some _ = Some _ |- _ => injection H as <-
          end;
      try (eexists; split; [reflexivity | lia]);
      try (f_equal; Z.div_mod_to_equations; lia).
  - repeat split; intros; try discriminate; try lia.
    eexists. split; [reflexivity | lia].
Qed.

Lemma twelve_hour_clock_witness :
  a_hour (wallClockArgs utcHost sixPM None) = Some (6 mod 12 + 12 * 1).
Proof.
  pose proof (twelve_hour_clock utcHost sixPM None 6 eq_refl) as H.
  cbv zeta in H. destruct H as (H & _).
  exact (H 1 eq_refl (or_intror eq_refl) ltac:(lia)).
Defined.

(** Extra X9.  Components that name a real calendar day (a month from 1
    to 12, a day of that month, leap years included) and a time of day
    come back from the local getters of the [Date] that
    [componentsToWallClock] builds: the year (two-digit years moved
    into 1900 to 1999), the month, the day, the resolved hour, the
    minute and the second, on a host where that wall-clock time
    exists.  No reference date is consulted. *)
Theorem componentsToWallClock_reads_back (host : Host)
  (components : Components) (ref : option Date) (y mo d h mi s : Z) :
  let args := wallClockArgs host components ref in
  c_year components = Some y ->
  c_month components = Some mo ->
  c_day components = Some d ->
  c_minute components = Some mi ->
  c_second components = Some s ->
  a_hour args = Some h ->
  1 <= mo <= 12 ->
  1 <= d <= DaysInMonth (isLeapYear (fullYear y)) (mo - 1) ->
  0 <= h <= 23 -> 0 <= mi <= 59 -> 0 <= s <= 59 ->
  hostHasWallClock host args ->
  wallClockFields host (componentsToWallClock host components ref)
  = Some (fullYear y, mo, d, h, mi, s).
Proof.
  intros args Hy Hmo Hd Hmi Hs Hh Rmo Rd Rh Rmi Rs (w & t & Hw & Ht & Hl).
  assert (Ay : a_year args = Some y)
    by (unfold args, wallClockArgs; cbn [a_year]; rewrite Hy; reflexivity).
  assert (Amo : a_month args = Some (mo - 1))
    by (unfold args, wallClockArgs; cbn [a_month]; rewrite Hmo; reflexivity).
  assert (Ad : a_day args = Some d)
    by (unfold args, wallClockArgs; cbn [a_day]; rewrite Hd; reflexivity).
  assert (Ami : a_minute args = Some mi)
    by (unfold args, wallClockArgs; cbn [a_minute]; rewrite Hmi; reflexivity).
  assert (As : a_second args = Some s)
    by (unfold args, wallClockArgs; cbn [a_second]; rewrite Hs; reflexivity).
  unfold componentsToWallClock. fold args. rewrite Ht.
  cbn [wallClockFields]. rewrite Hl.
  unfold wallValue in Hw. rewrite Ay, Amo, Ad, Hh, Ami, As in Hw.
  injection Hw as <-.
  rewrite civilFields_MakeDate by (assumption || lia).
  repeat f_equal. lia.
Qed.

Lemma componentsToWallClock_reads_back_witness :
  wallClockFields utcHost (componentsToWallClock utcHost nineThirty None)
  = Some (fullYear 2024, 2, 29, 21, 30, 0).
Proof.
  pose proof (componentsToWallClock_reads_back utcHost nineThirty None
                2024 2 29 21 30 0) as H.
  cbv zeta in H.
  apply H; try reflexivity; try (vm_compute; split; discriminate).
  exists 1709242200000, 1709242200000. repeat split.
Defined.

(** ** [parseSelectedText] *)

Lemma convertParsed_end (host : Host) (parsed : Parsed) (from to : jsstring)
  (conv : Converted) :
  convertParsed host parsed from to = Ok conv ->
  (p_end parsed = None <-> endUTC conv = None)
  /\ Ok (startUTC conv) = wallClockToUTC host (p_start parsed) from.
Proof.
  unfold convertParsed.
  destruct (wallClockToUTC host (p_start parsed) from) as [u|]; cbn [bind];
    [|discriminate].
  destruct (p_end parsed) as [e|].
  - destruct (wallClockToUTC host e from) as [v|]; cbn [bind]; [|discriminate].
    repeat match goal with
           | |- context [bind ?r _] => destruct r; cbn [bind]; try discriminate
           end.
    intros [= <-]. cbn [endUTC startUTC]. split; [split; discriminate | reflexivity].
  - cbn [bind].
    repeat match goal with
           | |- context [bind ?r _] => destruct r; cbn [bind]; try discriminate
           end.
    intros [= <-]. cbn [endUTC startUTC]. split; [split; reflexivity | reflexivity].
Qed.

(** Extra X10.  In a result of [parseSelectedText] the flag [hasRange]
    is set exactly when there is an end date, and any successful
    conversion of it has an [endUTC] exactly when the flag is set. *)
Theorem parse_result_range_flag (host : Host) (text : jsstring)
  (parsed : Parsed) :
  parseSelectedText host text = Some parsed ->
  (hasRange parsed = true <-> p_end parsed <> None)
  /\ (forall from to conv,
         convertParsed host parsed from to = Ok conv ->
         (hasRange parsed = true <-> endUTC conv <> None)).
Proof.
  intros H.
  assert (F : hasRange parsed = true <-> p_end parsed <> None).
  { unfold parseSelectedText in H.
    destruct (chronoParse host _ _) as [[|r rest]|]; try discriminate.
    injection H as <-. cbn [hasRange p_end].
    destruct (r_end r); split; congruence. }
  split; [exact F|].
  intros from to conv Hc.
  destruct (convertParsed_end host parsed from to conv Hc) as [E _].
  rewrite F. split; intros N C; apply N; apply E; exact C.
Qed.

Lemma parse_result_range_flag_witness :
  exists parsed,
    parseSelectedText (sampleHost 0 rangeFound) (lit "6pm - 6pm") = Some parsed
    /\ (hasRange parsed = true <-> p_end parsed <> None).
Proof.
  eexists. split; [reflexivity|].
  apply (parse_result_range_flag (sampleHost 0 rangeFound) (lit "6pm - 6pm")).
  reflexivity.
Defined.

(** ** [normalizeForChrono] *)

Section Normalize.

(** A property of characters that the space has. *)
Variable Q : Z -> Prop.
Hypothesis Q_space : Q 32.

Lemma dropWhile_split (p : Z -> bool) (s : jsstring) :
  exists run, s = run ++ dropWhile p s /\ Forall (fun c => p c = true) run
              /\ List.length run = countWhile p s.
Proof.
  induction s as [|c s (run & E & F & L)]; simpl.
  - exists []. repeat split. constructor.
  - destruct (p c) eqn:P.
    + exists (c :: run). repeat split.
      * simpl. congruence.
      * constructor; assumption.
      * simpl. congruence.
    + exists []. repeat split. constructor.
Qed.

Lemma dropWhile_head (p : Z -> bool) (s : jsstring) :
  match dropWhile p s with
  | [] => True
  | c :: _ => p c = false
  end.
Proof.
  induction s as [|c s IH]; simpl; [exact I|].
  destruct (p c) eqn:P; [exact IH | exact P].
Qed.

Lemma skipn_countWhile (p : Z -> bool) (s : jsstring) :
  skipn (countWhile p s) s = dropWhile p s.
Proof.
  induction s as [|c s IH]; simpl; [reflexivity|].
  destruct (p c); [exact IH | reflexivity].
Qed.

Lemma skipn_S_tl (n : nat) (s : jsstring) : skipn (S n) s = tl (skipn n s).
Proof.
  revert s. induction n as [|n IH]; intros [|c s]; try reflexivity.
  exact (IH s).
Qed.

Lemma skipn_S_countWhile (p : Z -> bool) (s : jsstring) :
  skipn (S (countWhile p s)) s = tl (dropWhile p s).
Proof. rewrite skipn_S_tl, skipn_countWhile. reflexivity. Qed.

Lemma Forall_skipn (n : nat) (s : jsstring) :
  Forall Q s -> Forall Q (skipn n s).
Proof.
  revert s. induction n as [|n IH]; intros [|c s] H; simpl; try assumption.
  apply IH. inversion H; assumption.
Qed.

Lemma Forall_dropWhile (p : Z -> bool) (s : jsstring) :
  Forall Q s -> Forall Q (dropWhile p s).
Proof.
  induction 1 as [|c s Hc Hs IH]; simpl; [constructor|].
  destruct (p c); [exact IH | constructor; assumption].
Qed.

(** *** The two skipping passes, without their counters *)

Lemma collapseCommas_skip (s : jsstring) (k : nat) :
  collapseCommas s k = collapseCommas (skipn k s) O.
Proof.
  revert k. induction s as [|c s IH]; intros [|k]; try reflexivity.
  exact (IH k).
Qed.

Lemma collapseSpaces_skip (s : jsstring) (k : nat) :
  collapseSpaces s k = collapseSpaces (skipn k s) O.
Proof.
  revert k. induction s as [|c s IH]; intros [|k]; try reflexivity.
  exact (IH k).
Qed.

Lemma collapseCommas_cons (c : Z) (r : jsstring) :
  collapseCommas (c :: r) O
  = if c =? 44 then
      match dropWhile isWhiteSpace r with
      | 44 :: rest => 44 :: collapseCommas rest O
      | _ => c :: collapseCommas r O
      end
    else c :: collapseCommas r O.
Proof.
  cbn [collapseCommas]. destruct (c =? 44); [|reflexivity].
  pose proof (collapseCommas_skip r (S (countWhile isWhiteSpace r))) as E.
  rewrite skipn_S_countWhile in E.
  destruct (dropWhile isWhiteSpace r) as [|x rest]; [reflexivity|].
  cbn [tl] in E.
  destruct (Z.eqb_spec x 44) as [->|N].
  - rewrite E. reflexivity.
  - destruct x as [|x|x]; try reflexivity.
    do 6 (destruct x as [x|x|]; try reflexivity). congruence.
Qed.

Lemma collapseSpaces_cons (c : Z) (r : jsstring) :
  collapseSpaces (c :: r) O
  = if isWhiteSpace c then
      match countWhile isWhiteSpace r with
      | O => c :: collapseSpaces r O
      | S _ => 32 :: collapseSpaces (dropWhile isWhiteSpace r) O
      end
    else c :: collapseSpaces r O.
Proof.
  cbn [collapseSpaces]. destruct (isWhiteSpace c); [|reflexivity].
  destruct (countWhile isWhiteSpace r) as [|n] eqn:C; [reflexivity|].
  rewrite collapseSpaces_skip, <- C, skipn_countWhile. reflexivity.
Qed.

(** Induction on the length of a string. *)
Lemma length_induction (P : jsstring -> Prop) :
  (forall s, (forall s', (List.length s' < List.length s)%nat -> P s') -> P s) ->
  forall s, P s.
Proof.
  intros H s. remember (List.length s) as n eqn:E. revert s E.
  induction n as [n IH] using lt_wf_ind. intros s ->.
  apply H. intros s' L. apply (IH (List.length s')); [exact L | reflexivity].
Qed.

Lemma dropWhile_length (p : Z -> bool) (s : jsstring) :
  (List.length (dropWhile p s) <= List.length s)%nat.
Proof.
  induction s as [|c s IH]; simpl; [lia|]. destruct (p c); simpl; lia.
Qed.

(** *** Every pass keeps a property all characters have *)

Lemma Forall_collapseCommas (s : jsstring) :
  Forall Q s -> Forall Q (collapseCommas s O).
Proof.
  induction s as [s IH] using length_induction. intros H.
  destruct s as [|c r]; [constructor|].
  inversion H as [|? ? Hc Hr]; subst.
  rewrite collapseCommas_cons.
  assert (Hrec : Forall Q (c :: collapseCommas r O)).
  { constructor; [exact Hc|]. apply IH; [simpl; lia | exact Hr]. }
  destruct (Z.eqb_spec c 44) as [->|N]; [|exact Hrec].
  pose proof (Forall_dropWhile isWhiteSpace r Hr) as Hd.
  pose proof (dropWhile_length isWhiteSpace r) as L.
  destruct (dropWhile isWhiteSpace r) as [|x rest]; [exact Hrec|].
  destruct (Z.eqb_spec x 44) as [->|N].
  - constructor; [exact Hc|]. apply IH; [simpl in *; lia|].
    inversion Hd; assumption.
  - destruct x as [|x|x]; try exact Hrec.
    do 6 (destruct x as [x|x|]; try exact Hrec). congruence.
Qed.

Lemma Forall_collapseSpaces (s : jsstring) :
  Forall Q s -> Forall Q (collapseSpaces s O).
Proof.
  induction s as [s IH] using length_induction. intros H.
  destruct s as [|c r]; [constructor|].
  inversion H as [|? ? Hc Hr]; subst.
  rewrite collapseSpaces_cons.
  assert (Hrec : Forall Q (c :: collapseSpaces r O)).
  { constructor; [exact Hc|]. apply IH; [simpl; lia | exact Hr]. }
  destruct (isWhiteSpace c); [|exact Hrec].
  destruct (countWhile isWhiteSpace r); [exact Hrec|].
  constructor; [exact Q_space|].
  apply IH.
  - pose proof (dropWhile_length isWhiteSpace r). simpl. lia.
  - apply Forall_dropWhile, Hr.
Qed.

Lemma Forall_trim (s : jsstring) : Forall Q s -> Forall Q (trim s).
Proof.
  intros H. unfold trim.
  apply Forall_rev, Forall_dropWhile, Forall_rev, Forall_dropWhile, H.
Qed.

End Normalize.

(** A match on the comma, decided by a test. *)
Lemma comma_match {A : Type} (x : Z) (a b : A) :
  match x with 44 => a | _ => b end = if x =? 44 then a else b.
Proof.
  destruct (Z.eqb_spec x 44) as [->|N]; [reflexivity|].
  destruct x as [|x|x]; try reflexivity.
  do 6 (destruct x as [x|x|]; try reflexivity). congruence.
Qed.

(** *** The payload passes through *)

Lemma isPayload_whitespace (c : Z) : isWhiteSpace c = true -> isPayload c = false.
Proof. intros H. unfold isPayload. rewrite H. reflexivity. Qed.

Lemma filter_payload_run (run s : jsstring) :
  Forall (fun c => isWhiteSpace c = true) run ->
  filter isPayload (run ++ s) = filter isPayload s.
Proof.
  induction 1 as [|c run Hc _ IH]; simpl; [reflexivity|].
  rewrite (isPayload_whitespace c Hc). exact IH.
Qed.

Lemma filter_payload_dropWhile (s : jsstring) :
  filter isPayload (dropWhile isWhiteSpace s) = filter isPayload s.
Proof.
  destruct (dropWhile_split isWhiteSpace s) as (run & E & F & _).
  rewrite E at 2. symmetry. apply filter_payload_run, F.
Qed.

Lemma filter_payload_replaceSeparators (s : jsstring) :
  filter isPayload (replaceSeparators s) = filter isPayload s.
Proof.
  induction s as [|c s IH]; [reflexivity|]. cbn [replaceSeparators].
  destruct (isSeparator c) eqn:S.
  - change (filter isPayload (44 :: 32 :: replaceSeparators s))
      with (filter isPayload (replaceSeparators s)).
    assert (P : isPayload c = false)
      by (unfold isPayload; rewrite S, orb_true_r; reflexivity).
    cbn [filter]. rewrite P. exact IH.
  - cbn [filter]. rewrite IH. reflexivity.
Qed.

Lemma filter_payload_collapseCommas (s : jsstring) :
  filter isPayload (collapseCommas s O) = filter isPayload s.
Proof.
  induction s as [s IH] using length_induction.
  destruct s as [|c r]; [reflexivity|].
  rewrite collapseCommas_cons.
  assert (Hrec : filter isPayload (c :: collapseCommas r O)
                 = filter isPayload (c :: r)).
  { cbn [filter]. rewrite IH by (simpl; lia). reflexivity. }
  destruct (Z.eqb_spec c 44) as [->|N]; [|exact Hrec].
  pose proof (filter_payload_dropWhile r) as D.
  pose proof (dropWhile_length isWhiteSpace r) as L.
  destruct (dropWhile isWhiteSpace r) as [|x rest]; [exact Hrec|].
  rewrite comma_match. destruct (Z.eqb_spec x 44) as [->|N]; [|exact Hrec].
  change (filter isPayload (44 :: collapseCommas rest O))
    with (filter isPayload (collapseCommas rest O)).
  change (filter isPayload (44 :: r)) with (filter isPayload r).
  change (filter isPayload (44 :: rest)) with (filter isPayload rest) in D.
  rewrite IH by (simpl in *; lia). exact D.
Qed.

Lemma filter_payload_collapseSpaces (s : jsstring) :
  filter isPayload (collapseSpaces s O) = filter isPayload s.
Proof.
  induction s as [s IH] using length_induction.
  destruct s as [|c r]; [reflexivity|].
  rewrite collapseSpaces_cons.
  assert (Hrec : filter isPayload (c :: collapseSpaces r O)
                 = filter isPayload (c :: r)).
  { cbn [filter]. rewrite IH by (simpl; lia). reflexivity. }
  destruct (isWhiteSpace c) eqn:W; [|exact Hrec].
  destruct (countWhile isWhiteSpace r); [exact Hrec|].
  change (filter isPayload (32 :: ?x)) with (filter isPayload x).
  cbn [filter]. rewrite (isPayload_whitespace c W).
  rewrite IH by (pose proof (dropWhile_length isWhiteSpace r); simpl; lia).
  apply filter_payload_dropWhile.
Qed.

Lemma filter_payload_trim (s : jsstring) :
  filter isPayload (trim s) = filter isPayload s.
Proof.
  unfold trim.
  rewrite filter_rev, filter_payload_dropWhile, filter_rev, rev_involutive.
  apply filter_payload_dropWhile.
Qed.

(** Extra X11.  [normalizeForChrono] changes only white space, commas
    and the three separators (pipe, em dash, bullet): the other
    characters of the text come out in the same order and number.  The
    en dash is one of them: it is not in the separator class, so a
    range written with it stays a range. *)
Theorem normalizeForChrono_keeps_payload (text : jsstring) :
  filter isPayload (normalizeForChrono text) = filter isPayload text
  /\ (forall c, isPayload c = true ->
                count_occ Z.eq_dec (normalizeForChrono text) c
                = count_occ Z.eq_dec text c)
  /\ isPayload 8211 = true.
Proof.
  assert (F : filter isPayload (normalizeForChrono text) = filter isPayload text).
  { unfold normalizeForChrono.
    rewrite filter_payload_trim, filter_payload_collapseSpaces,
      filter_payload_collapseCommas, filter_payload_replaceSeparators.
    reflexivity. }
  split; [exact F|]. split; [|reflexivity].
  intros c Hc.
  assert (G : forall s, count_occ Z.eq_dec s c
                        = count_occ Z.eq_dec (filter isPayload s) c).
  { induction s as [|x s IH]; [reflexivity|]. cbn [filter count_occ].
    destruct (Z.eq_dec x c) as [->|N].
    - rewrite Hc. cbn [count_occ]. destruct (Z.eq_dec c c); [|congruence].
      rewrite IH. reflexivity.
    - destruct (isPayload x); [|exact IH].
      cbn [count_occ]. destruct (Z.eq_dec x c); [congruence | exact IH]. }
  rewrite (G (normalizeForChrono text)), (G text), F. reflexivity.
Qed.

(** *** The shape of the result *)

Lemma replaceSeparators_clean (s : jsstring) :
  Forall (fun c => isSeparator c = false) (replaceSeparators s).
Proof.
  induction s as [|c s IH]; [constructor|]. cbn [replaceSeparators].
  destruct (isSeparator c) eqn:S.
  - constructor; [reflexivity|]. constructor; [reflexivity | exact IH].
  - constructor; assumption.
Qed.

Lemma noAdjacentSpace_cons (x : Z) (t : jsstring) :
  noAdjacentSpace t ->
  isWhiteSpace x = false \/ startsClean t ->
  noAdjacentSpace (x :: t).
Proof.
  intros Ht Hx pre a b post E. destruct pre as [|p pre].
  - injection E as -> ->. destruct Hx as [Hx|Hx].
    + rewrite Hx. reflexivity.
    + cbn [startsClean] in Hx. rewrite Hx. apply andb_false_r.
  - injection E as <- E. apply (Ht pre a b post E).
Qed.

Lemma noAdjacentSpace_tail (l1 l2 : jsstring) :
  noAdjacentSpace (l1 ++ l2) -> noAdjacentSpace l2.
Proof.
  intros H pre a b post E. apply (H (l1 ++ pre) a b post).
  rewrite E, app_assoc. reflexivity.
Qed.

Lemma noAdjacentSpace_rev (s : jsstring) :
  noAdjacentSpace s -> noAdjacentSpace (rev s).
Proof.
  intros H pre a b post E. rewrite andb_comm.
  apply (H (rev post) b a (rev pre)).
  rewrite <- (rev_involutive s), E, rev_app_distr. cbn [rev].
  rewrite <- !app_assoc. reflexivity.
Qed.

Lemma noAdjacentSpace_dropWhile (p : Z -> bool) (s : jsstring) :
  noAdjacentSpace s -> noAdjacentSpace (dropWhile p s).
Proof.
  intros H. destruct (dropWhile_split p s) as (run & E & _).
  apply (noAdjacentSpace_tail run). rewrite <- E. exact H.
Qed.

Lemma collapseSpaces_shape (s : jsstring) :
  noAdjacentSpace (collapseSpaces s O)
  /\ (startsClean s -> startsClean (collapseSpaces s O)).
Proof.
  induction s as [s IH] using length_induction.
  destruct s as [|c r].
  - split; [|intros; exact I]. intros [|? ?] ? ? ? E; discriminate E.
  - rewrite collapseSpaces_cons.
    destruct (IH r ltac:(simpl; lia)) as [Nr Sr].
    destruct (isWhiteSpace c) eqn:W.
    + destruct (countWhile isWhiteSpace r) as [|n] eqn:C.
      * split; [|intros H; exact H].
        apply noAdjacentSpace_cons; [exact Nr|]. right. apply Sr.
        destruct r as [|x r]; [exact I|]. cbn [countWhile] in C.
        cbn [startsClean]. destruct (isWhiteSpace x); [discriminate | reflexivity].
      * split; [|intros H; cbn [startsClean] in H; congruence].
        pose proof (dropWhile_length isWhiteSpace r) as L.
        destruct (IH (dropWhile isWhiteSpace r) ltac:(simpl; lia)) as [Nd Sd].
        apply noAdjacentSpace_cons; [exact Nd|]. right. apply Sd.
        pose proof (dropWhile_head isWhiteSpace r) as Hd.
        destruct (dropWhile isWhiteSpace r); [exact I | exact Hd].
    + split; [|intros _; exact W].
      apply noAdjacentSpace_cons; [exact Nr|]. left. exact W.
Qed.

Lemma dropWhile_snoc (p : Z -> bool) (l : jsstring) (h : Z) :
  p h = false -> dropWhile p (l ++ [h]) = dropWhile p l ++ [h].
Proof.
  intros H. induction l as [|c l IH]; simpl.
  - rewrite H. reflexivity.
  - destruct (p c); [exact IH | reflexivity].
Qed.

Lemma trim_trimmed (s : jsstring) : trimmed (trim s).
Proof.
  unfold trimmed, trim. rewrite rev_involutive. split.
  - pose proof (dropWhile_head isWhiteSpace s) as H.
    destruct (dropWhile isWhiteSpace s) as [|h l]; [exact I|].
    cbn [rev]. rewrite (dropWhile_snoc _ _ _ H), rev_app_distr. exact H.
  - apply (dropWhile_head isWhiteSpace).
Qed.

Lemma startsClean_head (s : jsstring) :
  startsClean s <->
  match s with [] => True | c :: _ => isWhiteSpace c = false end.
Proof. reflexivity. Qed.

(** Extra X12.  The text [normalizeForChrono] returns holds none of the
    three separator characters, neither starts nor ends with white
    space, and has no two white-space characters next to each other. *)
Theorem normalizeForChrono_shape (text : jsstring) :
  let out := normalizeForChrono text in
  Forall (fun c => isSeparator c = false) out
  /\ trimmed out
  /\ noAdjacentSpace out.
Proof.
  intros out. unfold out, normalizeForChrono. split; [|split].
  - apply Forall_trim, Forall_collapseSpaces; [reflexivity|].
    apply Forall_collapseCommas, replaceSeparators_clean.
  - apply trim_trimmed.
  - unfold trim.
    apply noAdjacentSpace_rev, noAdjacentSpace_dropWhile, noAdjacentSpace_rev,
      noAdjacentSpace_dropWhile.
    apply collapseSpaces_shape.
Qed.

(** *** Clean text *)

Lemma replaceSeparators_id (s : jsstring) :
  Forall (fun c => isSeparator c = false) s -> replaceSeparators s = s.
Proof.
  induction 1 as [|c s Hc _ IH]; [reflexivity|].
  cbn [replaceSeparators]. rewrite Hc, IH. reflexivity.
Qed.

Lemma noCommaPair_tail (c : Z) (s : jsstring) :
  noCommaPair (c :: s) -> noCommaPair s.
Proof.
  intros H pre mid post E. apply (H (c :: pre) mid post).
  rewrite E. reflexivity.
Qed.

Lemma collapseCommas_id (s : jsstring) :
  noCommaPair s -> collapseCommas s O = s.
Proof.
  induction s as [|c r IH]; intros H; [reflexivity|].
  rewrite collapseCommas_cons, (IH (noCommaPair_tail c r H)).
  destruct (Z.eqb_spec c 44) as [->|N]; [|reflexivity].
  destruct (dropWhile_split isWhiteSpace r) as (run & E & F & _).
  destruct (dropWhile isWhiteSpace r) as [|x rest]; [reflexivity|].
  rewrite comma_match. destruct (Z.eqb_spec x 44) as [->|N]; [|reflexivity].
  exfalso. destruct (H [] run rest) as (z & Hz & Wz).
  - rewrite E at 1. reflexivity.
  - rewrite Forall_forall in F. rewrite (F z Hz) in Wz. discriminate.
Qed.

Lemma collapseSpaces_id (s : jsstring) :
  noAdjacentSpace s -> collapseSpaces s O = s.
Proof.
  induction s as [|c r IH]; intros H; [reflexivity|].
  rewrite collapseSpaces_cons, (IH (noAdjacentSpace_tail [c] r H)).
  destruct (isWhiteSpace c) eqn:W; [|reflexivity].
  destruct r as [|x r]; [reflexivity|]. cbn [countWhile].
  specialize (H [] c x r eq_refl). rewrite W in H. cbn [andb] in H.
  rewrite H. reflexivity.
Qed.

Lemma dropWhile_id (p : Z -> bool) (s : jsstring) :
  match s with [] => True | c :: _ => p c = false end -> dropWhile p s = s.
Proof. destruct s as [|c s]; [reflexivity|]. simpl. intros ->. reflexivity. Qed.

Lemma trim_id (s : jsstring) : trimmed s -> trim s = s.
Proof.
  intros [H1 H2]. unfold trim.
  rewrite (dropWhile_id _ s H1), (dropWhile_id _ (rev s) H2).
  apply rev_involutive.
Qed.

(** Extra X13.  Text that holds no separator character, no comma
    followed by a comma or by white space and a comma, no two adjacent
    white-space characters, and no white space at either end is
    returned unchanged by [normalizeForChrono]. *)
Theorem normalizeForChrono_leaves_clean_text (text : jsstring) :
  Forall (fun c => isSeparator c = false) text ->
  noCommaPair text ->
  noAdjacentSpace text ->
  trimmed text ->
  normalizeForChrono text = text.
Proof.
  intros Hs Hc Ha Ht. unfold normalizeForChrono.
  rewrite (replaceSeparators_id text Hs), (collapseCommas_id text Hc),
    (collapseSpaces_id text Ha).
  apply trim_id, Ht.
Qed.

Lemma noAdjacentSpaceb_sound (s : jsstring) :
  noAdjacentSpaceb s = true -> noAdjacentSpace s.
Proof.
  induction s as [|a r IH]; intros H pre x y post E.
  - destruct pre; discriminate E.
  - destruct r as [|b r].
    + destruct pre as [|? [|? ?]]; discriminate E.
    + cbn [noAdjacentSpaceb] in H. apply andb_true_iff in H as [H1 H2].
      destruct pre as [|p pre].
      * injection E as -> -> _. apply negb_true_iff, H1.
      * injection E as _ E. apply (IH H2 pre x y post E).
Qed.

Lemma single_comma_noCommaPair (s : jsstring) :
  (count_occ Z.eq_dec s 44%Z <= 1)%nat -> noCommaPair s.
Proof.
  intros H pre mid post E. exfalso. rewrite E in H.
  rewrite count_occ_app in H. cbn [count_occ] in H.
  destruct (Z.eq_dec 44 44); [|congruence].
  rewrite count_occ_app in H. cbn [count_occ] in H.
  destruct (Z.eq_dec 44 44); [|congruence]. lia.
Qed.

Lemma normalizeForChrono_leaves_clean_text_witness :
  normalizeForChrono (lit "February 19th, 6:00 PM ET")
  = lit "February 19th, 6:00 PM ET".
Proof.
  apply normalizeForChrono_leaves_clean_text.
  - apply Forall_forall. intros c Hc.
    apply (proj1 (forallb_forall (fun c => negb (isSeparator c))
                    (lit "February 19th, 6:00 PM ET")) eq_refl) in Hc.
    apply negb_true_iff, Hc.
  - apply single_comma_noCommaPair. vm_compute. lia.
  - apply noAdjacentSpaceb_sound. reflexivity.
  - split; reflexivity.
Defined.

(** *** Separators *)

Lemma replaceSeparators_same (s1 s2 : jsstring) :
  Forall2 sameOrSeparators s1 s2 ->
  replaceSeparators s1 = replaceSeparators s2.
Proof.
  induction 1 as [|a b s1 s2 [->|[Ha Hb]] _ IH]; [reflexivity| |];
    cbn [replaceSeparators]; rewrite IH; [reflexivity|].
  rewrite Ha, Hb. reflexivity.
Qed.

(** Extra X14.  The three separators are interchangeable: two texts that
    differ only in which separator stands at a position normalise to
    the same text, so [parseSelectedText] gives the same result for
    both. *)
Theorem separators_are_interchangeable (host : Host) (text1 text2 : jsstring) :
  Forall2 sameOrSeparators text1 text2 ->
  normalizeForChrono text1 = normalizeForChrono text2
  /\ parseSelectedText host text1 = parseSelectedText host text2.
Proof.
  intros H.
  assert (N : normalizeForChrono text1 = normalizeForChrono text2).
  { unfold normalizeForChrono. rewrite (replaceSeparators_same _ _ H).
    reflexivity. }
  split; [exact N|]. unfold parseSelectedText. rewrite N. reflexivity.
Qed.

Lemma separators_are_interchangeable_witness :
  normalizeForChrono [70; 101; 98; 32; 49; 57; 32; 124; 32; 54; 112; 109]
  = normalizeForChrono [70; 101; 98; 32; 49; 57; 32; 8226; 32; 54; 112; 109].
Proof.
  apply (separators_are_interchangeable utcHost).
  repeat (constructor; [first [left; reflexivity | right; split; reflexivity]|]).
  constructor.
Defined.

(** ** [detectTimezone] *)

Lemma detectsAs_found (text z : jsstring) (l : nat) :
  detectsAs text (Some z) l = true -> detectTimezone O text = Some (JStr z, l).
Proof.
  unfold detectsAs.
  destruct (detectTimezone O text) as [[[| |z'] l']|]; try discriminate.
  intros H. apply andb_true_iff in H as [H1 H2].
  apply streq_eq in H1. apply Nat.eqb_eq in H2. congruence.
Qed.

Lemma detectsAs_null (text : jsstring) (l : nat) :
  detectsAs text None l = true -> detectTimezone O text = Some (JNull, l).
Proof.
  unfold detectsAs.
  destruct (detectTimezone O text) as [[[| |z'] l']|]; try discriminate.
  intros H. apply Nat.eqb_eq in H. congruence.
Qed.

Lemma table_entries_detected : forallb entryDetected TIMEZONE_MAP = true.
Proof. vm_compute. reflexivity. Qed.

(** Extra X15.  Every alias of [TIMEZONE_MAP], written in capitals as the
    only text, is detected as its zone, with [lastIndex] left at its
    end.  Written as the table spells it, an alias is detected unless
    [isFalsePositive] rejects it, which happens for exactly four keys:
    "India", "Japan", "Korea" and "China" (five characters or fewer,
    not all capitals); for those the result is [null]. *)
Theorem every_alias_resolves (key zone : jsstring) :
  In (key, zone) TIMEZONE_MAP ->
  detectTimezone O (toUpperCase key) = Some (JStr zone, len key)
  /\ (isFalsePositive key = true <-> In key shortMixedCaseKeys)
  /\ (isFalsePositive key = false ->
      detectTimezone O key = Some (JStr zone, len key))
  /\ (isFalsePositive key = true -> detectTimezone O key = Some (JNull, O)).
Proof.
  intros Hin. pose proof table_entries_detected as H.
  rewrite forallb_forall in H. specialize (H (key, zone) Hin).
  cbn [entryDetected] in H.
  apply andb_true_iff in H as [H H3]. apply andb_true_iff in H as [H1 H2].
  apply Bool.eqb_prop in H2.
  split; [apply detectsAs_found, H1|]. split; [|split].
  - rewrite H2. split.
    + intros E. apply existsb_exists in E as (k & Hk & E).
      apply streq_eq in E. congruence.
    + intros Hk. apply existsb_exists. exists key. split; [exact Hk|].
      apply streq_refl.
  - intros F. rewrite F in H3. apply detectsAs_found, H3.
  - intros F. rewrite F in H3. apply detectsAs_null, H3.
Qed.

Lemma In_table (key zone : jsstring) :
  existsb (fun e => streq (fst e) key && streq (snd e) zone) TIMEZONE_MAP = true ->
  In (key, zone) TIMEZONE_MAP.
Proof.
  intros H. apply existsb_exists in H as ((k & z) & Hin & E).
  apply andb_true_iff in E as [E1 E2]. apply streq_eq in E1, E2.
  simpl in E1, E2. congruence.
Qed.

Lemma every_alias_resolves_witness :
  detectTimezone O (lit "JAPAN") = Some (JStr (lit "Asia/Tokyo"), 5%nat)
  /\ detectTimezone O (lit "Japan") = Some (JNull, O).
Proof.
  pose proof (every_alias_resolves (lit "Japan") (lit "Asia/Tokyo")
                (In_table (lit "Japan") (lit "Asia/Tokyo")
                   ltac:(vm_compute; reflexivity)))
    as (H1 & _ & _ & H4).
  split; [exact H1|]. apply H4. reflexivity.
Defined.

(** Every key has at least two characters. *)
Lemma keys_two_characters :
  forallb (fun k => (2 <=? len k)%nat) SORTED_KEYS = true.
Proof. vm_compute. reflexivity. Qed.

Lemma mapGet_entry (key z : jsstring) :
  mapGet key = JStr z -> In (key, z) TIMEZONE_MAP.
Proof.
  unfold mapGet.
  destruct (find (fun e => streq (fst e) key) TIMEZONE_MAP) as [[k v]|] eqn:F;
    [|discriminate].
  intros [= <-]. apply find_some in F as [Hin E]. apply streq_eq in E.
  simpl in E. subst k. exact Hin.
Qed.

(** A zone the loop returns comes from an accepted match of [exec]. *)
Lemma detectLoop_found (fuel : nat) (text : jsstring) :
  forall lastIndex z lastIndex',
    detectLoop fuel text lastIndex = Some (JStr z, lastIndex') ->
    exists from i raw key,
      exec text from = (Some (i, raw), lastIndex')
      /\ isFalsePositive raw = false
      /\ findKey (toLowerCase raw) = Some key
      /\ mapGet key = JStr z.
Proof.
  induction fuel as [|fuel IH]; intros li z li'; [discriminate|].
  rewrite detectLoop_step.
  destruct (exec text li) as [[[i raw]|] li1] eqn:E; [|discriminate].
  destruct (isFalsePositive raw) eqn:FP; [apply IH|].
  destruct (findKey (toLowerCase raw)) as [k|] eqn:F; [|apply IH].
  intros [= Hz <-]. exists li, i, raw, k. repeat split; assumption.
Qed.

Lemma detectLoop_null (fuel : nat) (text : jsstring) :
  forall lastIndex lastIndex',
    detectLoop fuel text lastIndex = Some (JNull, lastIndex') ->
    lastIndex' = O.
Proof.
  induction fuel as [|fuel IH]; intros li li'; [discriminate|].
  rewrite detectLoop_step.
  destruct (exec text li) as [[[i raw]|] li1] eqn:E.
  - destruct (isFalsePositive raw); [apply IH|].
    destruct (findKey (toLowerCase raw)) as [k|] eqn:F; [|apply IH].
    intros [= Hz <-]. exfalso.
    unfold findKey in F. apply find_some in F as [Hin _].
    destruct (mapGet_key k Hin) as (z & Hk & _). congruence.
  - intros [= <-]. apply (exec_none _ _ _ E).
Qed.

Lemma firstn_prefix (raw rest : jsstring) :
  firstn (len raw) (raw ++ rest) = raw.
Proof.
  unfold len. induction raw as [|c raw IH]; simpl; [reflexivity|].
  rewrite IH. reflexivity.
Qed.

(** Extra X16.  A zone [detectTimezone] returns is written in the text:
    some stretch [raw] of the text at an index [i] equals, ignoring
    case, a key the table maps to that zone; the stretch passes
    [isFalsePositive], has no word character of the regex (ASCII
    letter, digit or underscore) right before or after it, and
    [lastIndex] is left right after it. *)
Theorem detected_zone_is_written_in_text (lastIndex : nat) (text z : jsstring)
  (lastIndex' : nat) :
  detectTimezone lastIndex text = Some (JStr z, lastIndex') ->
  exists i raw key,
    In (key, z) TIMEZONE_MAP
    /\ toLowerCase raw = toLowerCase key
    /\ firstn (len raw) (skipn i text) = raw
    /\ isFalsePositive raw = false
    /\ ~ insideWord text i (len raw)
    /\ lastIndex' = (i + len raw)%nat.
Proof.
  unfold detectTimezone. intros H.
  destruct (detectLoop_found _ _ _ _ _ H) as (from & i & raw & key & E & FP & F & G).
  destruct (exec_match _ _ _ _ _ E)
    as (k0 & rest & _ & _ & S & _ & _ & _ & B1 & B2 & _).
  destruct (exec_some _ _ _ _ _ E) as (_ & L & _).
  exists i, raw, key. repeat split.
  - apply mapGet_entry, G.
  - unfold findKey in F. apply find_some in F as [_ F].
    apply streq_eq in F. congruence.
  - rewrite S. apply firstn_prefix.
  - exact FP.
  - intros [W|W]; congruence.
  - exact L.
Qed.

Lemma detected_zone_is_written_in_text_witness :
  exists i raw key,
    In (key, lit "Europe/Paris") TIMEZONE_MAP
    /\ toLowerCase raw = toLowerCase key
    /\ firstn (len raw) (skipn i (lit "18:00 CET")) = raw
    /\ isFalsePositive raw = false
    /\ ~ insideWord (lit "18:00 CET") i (len raw)
    /\ 9%nat = (i + len raw)%nat.
Proof.
  apply (detected_zone_is_written_in_text O (lit "18:00 CET")).
  vm_compute. reflexivity.
Defined.

(** Extra X17.  Whatever [lastIndex] the shared regex starts from,
    [detectTimezone] leaves it inside the text; it is left at 0 exactly
    when the result is [null]; and a text of fewer than two characters
    (the empty text too) gives [null]. *)
Theorem detectTimezone_lastIndex (lastIndex : nat) (text : jsstring)
  (v : jsval) (lastIndex' : nat) :
  detectTimezone lastIndex text = Some (v, lastIndex') ->
  (lastIndex' <= len text)%nat
  /\ (v = JNull <-> lastIndex' = O)
  /\ ((len text < 2)%nat -> v = JNull).
Proof.
  unfold detectTimezone. intros H.
  destruct (detectLoop_value _ _ _ _ _ H) as [->|(z & -> & _)].
  - rewrite (detectLoop_null _ _ _ _ H). repeat split; lia.
  - destruct (detectLoop_found _ _ _ _ _ H) as (from & i & raw & key & E & _).
    destruct (exec_match _ _ _ _ _ E)
      as (k0 & rest & Hin & _ & _ & _ & Hlen & _ & _ & _ & Hb).
    destruct (exec_some _ _ _ _ _ E) as (_ & L & _).
    pose proof keys_two_characters as K. rewrite forallb_forall in K.
    specialize (K k0 Hin). apply Nat.leb_le in K.
    repeat split; try lia; try discriminate.
Qed.

Lemma detectTimezone_lastIndex_witness :
  (18 <= len (lit "meeting at 3pm EST"))%nat
  /\ (JStr NewYork = JNull <-> 18%nat = O)
  /\ ((len (lit "meeting at 3pm EST") < 2)%nat -> JStr NewYork = JNull).
Proof.
  apply (detectTimezone_lastIndex 7 (lit "meeting at 3pm EST")).
  vm_compute. reflexivity.
Defined.

(** ** [escapeHtml] *)

Lemma replaceChar_app (c : Z) (repl a b : jsstring) :
  replaceChar c repl (a ++ b) = replaceChar c repl a ++ replaceChar c repl b.
Proof.
  induction a as [|x a IH]; simpl; [reflexivity|].
  destruct (x =? c); rewrite IH; [apply app_assoc | reflexivity].
Qed.

Lemma escapeHtml_cons (c : Z) (s : jsstring) :
  escapeHtml (c :: s) = escapeChar c ++ escapeHtml s.
Proof.
  unfold escapeHtml, escapeChar.
  destruct (Z.eqb_spec c 38) as [->|N38].
  { change (replaceChar 38 (lit "&amp;") (38 :: s))
      with (lit "&amp;" ++ replaceChar 38 (lit "&amp;") s).
    rewrite !replaceChar_app. reflexivity. }
  cbn [replaceChar]. rewrite (proj2 (Z.eqb_neq c 38) N38).
  destruct (Z.eqb_spec c 60) as [->|N60].
  { change (replaceChar 60 (lit "&lt;") (60 :: ?r))
      with (lit "&lt;" ++ replaceChar 60 (lit "&lt;") r).
    rewrite !replaceChar_app. reflexivity. }
  cbn [replaceChar]. rewrite (proj2 (Z.eqb_neq c 60) N60).
  destruct (Z.eqb_spec c 62) as [->|N62].
  { change (replaceChar 62 (lit "&gt;") (62 :: ?r))
      with (lit "&gt;" ++ replaceChar 62 (lit "&gt;") r).
    rewrite !replaceChar_app. reflexivity. }
  cbn [replaceChar]. rewrite (proj2 (Z.eqb_neq c 62) N62).
  destruct (Z.eqb_spec c 34) as [->|N34]; [reflexivity|].
  cbn [replaceChar]. rewrite (proj2 (Z.eqb_neq c 34) N34). reflexivity.
Qed.

Lemma escapeHtml_flat_map (str : jsstring) :
  escapeHtml str = flat_map escapeChar str.
Proof.
  induction str as [|c s IH]; [reflexivity|].
  rewrite escapeHtml_cons, IH. reflexivity.
Qed.

Lemma escapeChar_cases (c : Z) :
  (c = 38 /\ escapeChar c = [38; 97; 109; 112; 59])
  \/ (c = 60 /\ escapeChar c = [38; 108; 116; 59])
  \/ (c = 62 /\ escapeChar c = [38; 103; 116; 59])
  \/ (c = 34 /\ escapeChar c = [38; 113; 117; 111; 116; 59])
  \/ (c <> 38 /\ c <> 60 /\ c <> 62 /\ c <> 34 /\ escapeChar c = [c]).
Proof.
  unfold escapeChar.
  destruct (Z.eqb_spec c 38); [left; split; [assumption | reflexivity]|].
  destruct (Z.eqb_spec c 60); [right; left; split; [assumption | reflexivity]|].
  destruct (Z.eqb_spec c 62);
    [right; right; left; split; [assumption | reflexivity]|].
  destruct (Z.eqb_spec c 34);
    [right; right; right; left; split; [assumption | reflexivity]|].
  right; right; right; right. repeat split; assumption.
Qed.

(** The five replacement texts form a prefix code. *)
Lemma escapeChar_prefix_free (a b : Z) (x y : jsstring) :
  escapeChar a ++ x = escapeChar b ++ y -> a = b /\ x = y.
Proof.
  destruct (escapeChar_cases a)
    as [[Ha ->]|[[Ha ->]|[[Ha ->]|[[Ha ->]|(A1 & A2 & A3 & A4 & ->)]]]];
  destruct (escapeChar_cases b)
    as [[Hb ->]|[[Hb ->]|[[Hb ->]|[[Hb ->]|(B1 & B2 & B3 & B4 & ->)]]]];
  cbn [app]; intros H; try discriminate H;
  try (injection H as H; split; congruence);
  try (injection H as H; exfalso; congruence).
Qed.

Lemma escapeChar_nonempty (c : Z) (x : jsstring) : escapeChar c ++ x <> [].
Proof.
  destruct (escapeChar_cases c)
    as [[_ ->]|[[_ ->]|[[_ ->]|[[_ ->]|(_ & _ & _ & _ & ->)]]]]; discriminate.
Qed.

Lemma flat_map_escapeChar_injective (a : jsstring) :
  forall b, flat_map escapeChar a = flat_map escapeChar b -> a = b.
Proof.
  induction a as [|x a IH]; intros [|y b]; cbn [flat_map]; intros H.
  - reflexivity.
  - symmetry in H. destruct (escapeChar_nonempty _ _ H).
  - destruct (escapeChar_nonempty _ _ H).
  - destruct (escapeChar_prefix_free _ _ _ _ H) as [-> H'].
    rewrite (IH b H'). reflexivity.
Qed.

(** Extra X18.  The four replacements of [escapeHtml], made one after
    the other, amount to replacing each character on its own; the
    result holds no [<], [>] or double quote; different texts have
    different results; and a text with none of the four characters is
    returned as it is. *)
Theorem escapeHtml_neutralises_markup (str : jsstring) :
  escapeHtml str = flat_map escapeChar str
  /\ (forall c, In c (escapeHtml str) -> c <> 60 /\ c <> 62 /\ c <> 34)
  /\ (forall other, escapeHtml other = escapeHtml str -> other = str)
  /\ ((forall c, In c str -> c <> 38 /\ c <> 60 /\ c <> 62 /\ c <> 34) ->
      escapeHtml str = str).
Proof.
  split; [apply escapeHtml_flat_map|]. split; [|split].
  - intros c. rewrite escapeHtml_flat_map. intros H.
    apply in_flat_map in H as (x & _ & H).
    destruct (escapeChar_cases x)
      as [[_ E]|[[_ E]|[[_ E]|[[_ E]|(A1 & A2 & A3 & A4 & E)]]]];
      rewrite E in H; simpl in H; intuition lia.
  - intros other. rewrite !escapeHtml_flat_map.
    apply flat_map_escapeChar_injective.
  - rewrite escapeHtml_flat_map. induction str as [|c s IH]; intros H;
      [reflexivity|].
    cbn [flat_map]. rewrite IH by (intros x Hx; apply H; right; exact Hx).
    destruct (H c (or_introl eq_refl)) as (A1 & A2 & A3 & A4).
    destruct (escapeChar_cases c)
      as [[E _]|[[E _]|[[E _]|[[E _]|(_ & _ & _ & _ & E)]]]];
      try contradiction.
    rewrite E. reflexivity.
Qed.

(** ** [buildTimezoneOptions] *)

Lemma streq_neq (a b : jsstring) : streq a b = false -> a <> b.
Proof.
  intros H E. subst b. rewrite streq_refl in H. discriminate.
Qed.

Lemma ALL_TIMEZONES_NoDup : NoDup ALL_TIMEZONES.
Proof.
  assert (E : nodup (list_eq_dec Z.eq_dec) ALL_TIMEZONES = ALL_TIMEZONES)
    by (vm_compute; reflexivity).
  rewrite <- E. apply NoDup_nodup.
Qed.

Lemma labels_NoDup :
  NoDup (map (replaceChar 95 (lit " ")) ALL_TIMEZONES).
Proof.
  assert (E : nodup (list_eq_dec Z.eq_dec)
                (map (replaceChar 95 (lit " ")) ALL_TIMEZONES)
              = map (replaceChar 95 (lit " ")) ALL_TIMEZONES)
    by (vm_compute; reflexivity).
  rewrite <- E. apply NoDup_nodup.
Qed.

Lemma selected_count (selectedTZ : jsstring) (zones : list jsstring) :
  NoDup zones ->
  List.length (filter (fun tz => streq tz selectedTZ) zones)
  = if existsb (streq selectedTZ) zones then 1%nat else 0%nat.
Proof.
  induction 1 as [|x l Hx _ IH]; [reflexivity|].
  cbn [filter existsb]. destruct (streq x selectedTZ) eqn:E.
  - apply streq_eq in E. subst x. rewrite streq_refl. cbn [orb List.length].
    rewrite IH. destruct (existsb (streq selectedTZ) l) eqn:F;
      [|reflexivity].
    destruct (Hx (existsb_In _ _ F)).
  - destruct (streq selectedTZ x) eqn:E'.
    + apply streq_eq in E'. subst x. rewrite streq_refl in E. discriminate.
    + cbn [orb]. exact IH.
Qed.

Lemma filter_selected (selectedTZ : jsstring) (zones : list jsstring) :
  List.length
    (filter o_selected
       (map (fun tz => {| o_value := tz;
                          o_textContent := replaceChar 95 (lit " ") tz;
                          o_selected := streq tz selectedTZ |}) zones))
  = List.length (filter (fun tz => streq tz selectedTZ) zones).
Proof.
  induction zones as [|x l IH]; [reflexivity|].
  cbn [map filter o_selected]. destruct (streq x selectedTZ) eqn:E;
    cbn [List.length]; rewrite IH; reflexivity.
Qed.

Lemma buildTimezoneOptions_count (selectedTZ : jsstring) :
  List.length (filter o_selected (buildTimezoneOptions selectedTZ))
  = if existsb (streq selectedTZ) ALL_TIMEZONES then 1%nat else 0%nat.
Proof.
  unfold buildTimezoneOptions. rewrite filter_selected.
  apply selected_count, ALL_TIMEZONES_NoDup.
Qed.

Lemma In_existsb (k : jsstring) (l : list jsstring) :
  In k l -> existsb (streq k) l = true.
Proof.
  intros H. apply existsb_exists. exists k. split; [exact H|].
  apply streq_refl.
Qed.

Lemma replaceChar_one (c r : Z) (s : jsstring) :
  r <> c ->
  ~ In c (replaceChar c [r] s)
  /\ len (replaceChar c [r] s) = len s
  /\ (~ In r s -> replaceChar r [c] (replaceChar c [r] s) = s).
Proof.
  intros N. unfold len. induction s as [|x s (I1 & I2 & I3)].
  - simpl. repeat split; auto.
  - cbn [replaceChar]. destruct (Z.eqb_spec x c) as [->|Nx]; cbn [app].
    + repeat split.
      * intros [E|E]; [congruence | exact (I1 E)].
      * cbn [List.length]. rewrite I2. reflexivity.
      * intros Hr. cbn [replaceChar]. rewrite Z.eqb_refl. cbn [app].
        rewrite I3; [reflexivity|]. intros E. apply Hr. right. exact E.
    + repeat split.
      * intros [E|E]; [congruence | exact (I1 E)].
      * cbn [List.length]. rewrite I2. reflexivity.
      * intros Hr. cbn [replaceChar].
        destruct (Z.eqb_spec x r) as [->|Nr].
        { exfalso. apply Hr. left. reflexivity. }
        rewrite I3; [reflexivity|]. intros E. apply Hr. right. exact E.
Qed.

Lemma zones_have_no_space :
  forallb (fun tz => negb (existsb (Z.eqb 32) tz)) ALL_TIMEZONES = true.
Proof. vm_compute. reflexivity. Qed.

(** Extra X19.  [buildTimezoneOptions] returns one option per entry of
    [ALL_TIMEZONES], in order; an option is selected exactly when its
    value is the requested zone; its label has no underscore, has the
    length of the value, and gives the value back when spaces are
    turned into underscores; the labels are pairwise different; exactly
    one option is selected when the requested zone is in the list, and
    none otherwise. *)
Theorem buildTimezoneOptions_selects_at_most_one (selectedTZ : jsstring) :
  map o_value (buildTimezoneOptions selectedTZ) = ALL_TIMEZONES
  /\ (forall o, In o (buildTimezoneOptions selectedTZ) ->
        (o_selected o = true <-> o_value o = selectedTZ)
        /\ ~ In 95 (o_textContent o)
        /\ len (o_textContent o) = len (o_value o)
        /\ replaceChar 32 (lit "_") (o_textContent o) = o_value o)
  /\ NoDup (map o_textContent (buildTimezoneOptions selectedTZ))
  /\ (In selectedTZ ALL_TIMEZONES ->
      List.length (filter o_selected (buildTimezoneOptions selectedTZ)) = 1%nat)
  /\ (~ In selectedTZ ALL_TIMEZONES ->
      filter o_selected (buildTimezoneOptions selectedTZ) = []).
Proof.
  split; [|split; [|split; [|split]]].
  - unfold buildTimezoneOptions. rewrite map_map. cbn [o_value].
    apply map_id.
  - unfold buildTimezoneOptions. intros o Ho.
    apply in_map_iff in Ho as (tz & <- & Hin). cbn [o_value o_textContent o_selected].
    destruct (replaceChar_one 95 32 tz ltac:(lia)) as (R1 & R2 & R3).
    split; [apply streq_eq|]. split; [exact R1|]. split; [exact R2|].
    apply R3. pose proof zones_have_no_space as Z.
    rewrite forallb_forall in Z. specialize (Z tz Hin).
    apply negb_true_iff in Z. intros E.
    assert (existsb (Z.eqb 32) tz = true); [|congruence].
    apply existsb_exists. exists 32. split; [exact E | reflexivity].
  - unfold buildTimezoneOptions. rewrite map_map. cbn [o_textContent].
    apply labels_NoDup.
  - intros Hin. rewrite buildTimezoneOptions_count, (In_existsb _ _ Hin).
    reflexivity.
  - intros Hout. apply length_zero_iff_nil.
    rewrite buildTimezoneOptions_count.
    destruct (existsb (streq selectedTZ) ALL_TIMEZONES) eqn:E;
      [|reflexivity].
    destruct (Hout (existsb_In _ _ E)).
Qed.

Lemma detected_zones_offered :
  forallb (fun e => xorb (streq (snd e) (lit "GMT"))
                         (existsb (streq (snd e)) ALL_TIMEZONES))
    TIMEZONE_MAP = true.
Proof. vm_compute. reflexivity. Qed.

(** Extra X20.  Every zone the alias table maps to is in [ALL_TIMEZONES]
    except "GMT": for a detected zone other than "GMT" exactly one
    option of the source list is selected, for "GMT" none is. *)
Theorem detected_zone_is_preselected_unless_gmt (key zone : jsstring) :
  In (key, zone) TIMEZONE_MAP ->
  (In zone ALL_TIMEZONES <-> zone <> lit "GMT")
  /\ List.length (filter o_selected (buildTimezoneOptions zone))
     = (if streq zone (lit "GMT") then 0%nat else 1%nat).
Proof.
  intros Hin. pose proof detected_zones_offered as H.
  rewrite forallb_forall in H. specialize (H (key, zone) Hin).
  cbn [snd] in H. rewrite buildTimezoneOptions_count.
  destruct (streq zone (lit "GMT")) eqn:G;
    destruct (existsb (streq zone) ALL_TIMEZONES) eqn:E; try discriminate H.
  - apply streq_eq in G. split; [|reflexivity]. split.
    + intros I. apply In_existsb in I. congruence.
    + intros N. destruct (N G).
  - apply streq_neq in G. split; [|reflexivity]. split.
    + intros _. exact G.
    + intros _. apply existsb_In, E.
Qed.

Lemma detected_zone_is_preselected_unless_gmt_witness :
  ((In (lit "GMT") ALL_TIMEZONES <-> lit "GMT" <> lit "GMT")
   /\ List.length (filter o_selected (buildTimezoneOptions (lit "GMT"))) = 0%nat)
  /\ ((In NewYork ALL_TIMEZONES <-> NewYork <> lit "GMT")
      /\ List.length (filter o_selected (buildTimezoneOptions NewYork)) = 1%nat).
Proof.
  split.
  - apply (detected_zone_is_preselected_unless_gmt (lit "GMT") (lit "GMT")).
    apply In_table. vm_compute. reflexivity.
  - apply (detected_zone_is_preselected_unless_gmt (lit "EST") NewYork).
    apply In_table. vm_compute. reflexivity.
Defined.
